(** * Document question answering app: text extraction and abbreviation index

    A shallow embedding of [app_open_source.py]: the text extractor
    ([extract_text_from_file]), the abbreviation matcher
    ([extract_abbreviations]), the truncating call of the question-answering
    model ([get_answer]) and the two button handlers of the Streamlit page.

    Python strings are sequences of Unicode code points, so a string is a
    list of code points ([N]); uploaded contents are lists of bytes.  The
    third-party parsers (pypdf, python-docx, BeautifulSoup), the model and the
    Unicode character database are not part of the program: they are the
    variables of the sections below. *)

From Stdlib Require Import NArith String Ascii.
From Stdlib.Strings Require Import Byte.
From stdpp Require Import base option list sorting gmap.

Local Open Scope N_scope.
Set Warnings "-register-all".

(** ** Strings *)

Module Text.

(** A code point of a Python [str]. *)
Definition char : Type := N.
Definition str : Type := list char.

(** A literal of the source, as a list of code points. *)
Definition lit (s : string) : str :=
  map (fun a : ascii => N_of_ascii a) (list_ascii_of_string s).

(** [str.isspace] for one code point (CPython's [_PyUnicode_IsWhitespace]);
    [str.split], [str.strip] and the [\s] of [re] all use it. *)
Definition isspace (c : char) : bool :=
  ((9 <=? c) && (c <=? 13)) || ((28 <=? c) && (c <=? 32))
  || (c =? 133) || (c =? 160) || (c =? 5760)
  || ((8192 <=? c) && (c <=? 8202))
  || (c =? 8232) || (c =? 8233) || (c =? 8239) || (c =? 8287) || (c =? 12288).

Definition is_upper (c : char) : bool := (65 <=? c) && (c <=? 90).
Definition is_lower (c : char) : bool := (97 <=? c) && (c <=? 122).
Definition is_digit (c : char) : bool := (48 <=? c) && (c <=? 57).
Definition is_letter (c : char) : bool := is_upper c || is_lower c.

(** [sep.join(parts)]. *)
Fixpoint join (sep : str) (parts : list str) : str :=
  match parts with
  | [] => []
  | [p] => p
  | p :: ps => p ++ sep ++ join sep ps
  end.

(** [s.split()] with no argument: the maximal runs of non-whitespace
    characters, in order; [cur] is the run being read. *)
Fixpoint split_from (cur : str) (s : str) : list str :=
  match s with
  | [] => match cur with [] => [] | _ => [cur] end
  | c :: tl =>
      if isspace c
      then match cur with [] => split_from [] tl | _ => cur :: split_from [] tl end
      else split_from (cur ++ [c]) tl
  end.

Definition split (s : str) : list str := split_from [] s.

(** [s.lstrip()], [s.rstrip()] and [s.strip()] with no argument. *)
Fixpoint lstrip (s : str) : str :=
  match s with
  | c :: tl => if isspace c then lstrip tl else s
  | [] => []
  end.

Definition rstrip (s : str) : str := reverse (lstrip (reverse s)).
Definition strip (s : str) : str := rstrip (lstrip s).

(** The longest prefix of [s] whose characters satisfy [p], and what follows
    it. *)
Fixpoint span (p : char → bool) (s : str) : str * str :=
  match s with
  | c :: tl => if p c then let '(run, after) := span p tl in (c :: run, after)
               else ([], s)
  | [] => ([], [])
  end.

(** Lexicographic order on code points: the order of Python's [<=] on [str],
    which [sorted] uses. *)
Fixpoint str_leb (a b : str) : bool :=
  match a, b with
  | [], _ => true
  | _ :: _, [] => false
  | x :: a', y :: b' => (x <? y) || ((x =? y) && str_leb a' b')
  end.

Definition str_le (a b : str) : Prop := str_leb a b = true.

#[global] Instance str_le_dec : RelDecision str_le.
Proof. intros a b. unfold str_le. apply _. Defined.

End Text.

Import Text.

(** ** The fragment of [re] that the pattern uses *)

Module Re.

(** Where the matcher stands: the character before the position, when there
    is one, and the text from the position on. *)
Record cursor : Type := Cursor { prev : option char; rest : str }.

(** The constructs of the pattern.  [Greedy p lo hi] is a greedy repetition
    [X{lo,hi}] of a one-character item [X] (with [hi = None] for no upper
    bound); [Group r] is a capturing group.  The pattern has no nested group,
    so the captures are listed in the order of the groups. *)
Inductive regex : Type :=
  | Boundary
  | Item (p : char → bool)
  | Greedy (p : char → bool) (lo : nat) (hi : option nat)
  | Group (r : regex)
  | Seq (r1 r2 : regex).

Definition below (hi : option nat) (n : nat) : bool :=
  match hi with Some h => (n <? h)%nat | None => true end.

(** What a group captured between two positions of the text. *)
Definition capture (c c' : cursor) : str :=
  take (length (rest c) - length (rest c')) (rest c).

(** The result of a successful match: the captures and the position at its
    end. *)
Definition matched : Type := list str * cursor.
Definition cont : Type := cursor → option matched.

Section Engine.

(** [\w] on a non-ASCII code point is [str.isalnum] of the Unicode
    database. *)
Variable unicode_isalnum : char → bool.

Definition is_word (c : char) : bool :=
  if c <? 128 then is_letter c || is_digit c || (c =? 95) else unicode_isalnum c.

Definition is_word_opt (o : option char) : bool :=
  match o with Some c => is_word c | None => false end.

(** [\b]: exactly one of the two neighbours is a word character. *)
Definition at_boundary (c : cursor) : bool :=
  xorb (is_word_opt (prev c)) (is_word_opt (head (rest c))).

(** The greedy repetition: take one more item while it is allowed, and on
    failure of what follows give the last one back. [n] items are taken. *)
Fixpoint greedy (p : char → bool) (lo : nat) (hi : option nat) (n : nat)
    (pv : option char) (s : str) (k : cont) : option matched :=
  let stop := if (lo <=? n)%nat then k (Cursor pv s) else None in
  match s with
  | x :: tl =>
      if p x && below hi n
      then match greedy p lo hi (S n) (Some x) tl k with
           | Some m => Some m
           | None => stop
           end
      else stop
  | [] => stop
  end.

(** The backtracking matcher, in continuation-passing style: [k] is the rest
    of the pattern. *)
Fixpoint exec (r : regex) (c : cursor) (k : cont) : option matched :=
  match r with
  | Boundary => if at_boundary c then k c else None
  | Item p =>
      match rest c with
      | x :: tl => if p x then k (Cursor (Some x) tl) else None
      | [] => None
      end
  | Greedy p lo hi => greedy p lo hi 0 (prev c) (rest c) k
  | Group r1 =>
      exec r1 c (fun c' =>
        match k c' with
        | Some (caps, e) => Some (capture c c' :: caps, e)
        | None => None
        end)
  | Seq r1 r2 => exec r1 c (fun c' => exec r2 c' k)
  end.

(** A match that starts at the cursor. *)
Definition match_here (r : regex) (c : cursor) : option matched :=
  exec r c (fun c' => Some ([], c')).

(** The scan of [re.finditer] and [re.findall]: try every position from left
    to right; after a match, the search goes on from its end ([skip] counts
    the characters of the match still to step over).  Each match is listed
    with the position [pos] where it starts. *)
Fixpoint scan (r : regex) (pv : option char) (s : str) (pos skip : nat)
    : list (nat * list str) :=
  match s with
  | [] =>
      match skip with
      | O => match match_here r (Cursor pv []) with
             | Some (caps, _) => [(pos, caps)]
             | None => []
             end
      | S _ => []
      end
  | x :: tl =>
      match skip with
      | S n => scan r (Some x) tl (S pos) n
      | O =>
          match match_here r (Cursor pv s) with
          | Some (caps, e) =>
              (pos, caps)
              :: scan r (Some x) tl (S pos) (length s - length (rest e) - 1)
          | None => scan r (Some x) tl (S pos) 0
          end
      end
  end.

(** [re.findall] for a pattern with two groups: one pair per match, in the
    order of the scan; a group that took no part in a match reads as the
    empty string. *)
Definition findall (r : regex) (text : str) : list (str * str) :=
  map (fun m => (nth 0 m.2 [], nth 1 m.2 [])) (scan r None text 0 0).

End Engine.

End Re.

Import Re.

(** ** The abbreviation matcher *)

Section Abbreviations.

Variable unicode_isalnum : char → bool.

(** The class [[A-Za-z\s\-]]. *)
Definition is_term_char (c : char) : bool :=
  is_letter c || isspace c || (c =? 45).

(** [r"\b([A-Za-z][A-Za-z\s\-]{2,})\s*\(([A-Z]{2,10})\)"] *)
Definition pattern : regex :=
  Seq Boundary
 (Seq (Group (Seq (Item is_letter) (Greedy is_term_char 2 None)))
 (Seq (Greedy isspace 0 None)
 (Seq (Item (N.eqb 40))
 (Seq (Group (Greedy is_upper 2 (Some 10%nat)))
      (Item (N.eqb 41)))))).

(** [" ".join(full_term.split())] *)
Definition clean (full_term : str) : str := join (lit " ") (split full_term).

(** One turn of the loop over the matches. *)
Definition record_match (abbr_dict : gmap str str) (m : str * str)
    : gmap str str :=
  let '(full_term, abbr) := m in
  let full_term_clean := clean full_term in
  let abbr := strip abbr in
  match abbr_dict !! abbr with
  | None => <[abbr := full_term_clean]> abbr_dict
  | Some _ => abbr_dict
  end.

Definition extract_abbreviations (text : str) : gmap str str :=
  let matches := findall unicode_isalnum pattern text in
  foldl record_match ∅ matches.

End Abbreviations.

(** ** Exceptions and the effects of the page *)

(** A call either returns a value or raises an exception. *)
Inductive result (E A : Type) : Type :=
  | Ok (a : A)
  | Raise (e : E).
Arguments Ok {E A} a.
Arguments Raise {E A} e.

#[global] Instance result_ret {E} : MRet (result E) := λ A a, Ok a.
#[global] Instance result_bind {E} : MBind (result E) := λ A B f m,
  match m with Ok a => f a | Raise e => Raise e end.

(** What a handler does that can be seen from outside: the widgets it writes
    on the page and the calls of the model. *)
Inductive event : Type :=
  | Warning (s : str)
  | Success (s : str)
  | Error (s : str)
  | Write (s : str)
  | Markdown (s : str)
  | Ask (question context : str).

(** A handler: the events so far, in order, and how it ended.  An exception
    ends it; the events before the exception stay on the page. *)
Definition ui (E A : Type) : Type := list event * result E A.

#[global] Instance ui_ret {E} : MRet (ui E) := λ A a, ([], Ok a).
#[global] Instance ui_bind {E} : MBind (ui E) := λ A B f m,
  match m with
  | (log, Ok a) => let '(log', r) := f a in (log ++ log', r)
  | (log, Raise e) => (log, Raise e)
  end.

Definition emit {E} (ev : event) : ui E unit := ([ev], Ok tt).
Definition lift {E A} (r : result E A) : ui E A := ([], r).

(** ** The text extractor *)

Module Utf8.

Definition continuation (n : N) : bool := (128 <=? n) && (n <=? 191).

(** The range of the second byte after the lead byte [n0] of a three-byte
    sequence (no overlong form, no surrogate). *)
Definition second_of_3 (n0 n1 : N) : bool :=
  if n0 =? 224 then (160 <=? n1) && (n1 <=? 191)
  else if n0 =? 237 then (128 <=? n1) && (n1 <=? 159)
  else continuation n1.

(** The same for a four-byte sequence (no overlong form, nothing above
    U+10FFFF). *)
Definition second_of_4 (n0 n1 : N) : bool :=
  if n0 =? 240 then (144 <=? n1) && (n1 <=? 191)
  else if n0 =? 244 then (128 <=? n1) && (n1 <=? 143)
  else continuation n1.

(** [bs.decode("utf-8", errors="ignore")]: a byte that cannot start or
    continue a sequence is dropped, with the bytes of the sequence read so
    far, and decoding goes on after them. *)
Fixpoint decode_ignore (bs : list byte) : str :=
  match bs with
  | [] => []
  | b0 :: tl =>
      let n0 := Byte.to_N b0 in
      if n0 <? 128 then n0 :: decode_ignore tl
      else if (194 <=? n0) && (n0 <=? 223) then
        match tl with
        | b1 :: tl1 =>
            let n1 := Byte.to_N b1 in
            if continuation n1
            then ((n0 - 192) * 64 + (n1 - 128)) :: decode_ignore tl1
            else decode_ignore tl
        | [] => []
        end
      else if (224 <=? n0) && (n0 <=? 239) then
        match tl with
        | b1 :: tl1 =>
            let n1 := Byte.to_N b1 in
            if second_of_3 n0 n1 then
              match tl1 with
              | b2 :: tl2 =>
                  let n2 := Byte.to_N b2 in
                  if continuation n2
                  then ((n0 - 224) * 4096 + (n1 - 128) * 64 + (n2 - 128))
                       :: decode_ignore tl2
                  else decode_ignore tl1
              | [] => []
              end
            else decode_ignore tl
        | [] => []
        end
      else if (240 <=? n0) && (n0 <=? 244) then
        match tl with
        | b1 :: tl1 =>
            let n1 := Byte.to_N b1 in
            if second_of_4 n0 n1 then
              match tl1 with
              | b2 :: tl2 =>
                  let n2 := Byte.to_N b2 in
                  if continuation n2 then
                    match tl2 with
                    | b3 :: tl3 =>
                        let n3 := Byte.to_N b3 in
                        if continuation n3
                        then ((n0 - 240) * 262144 + (n1 - 128) * 4096
                              + (n2 - 128) * 64 + (n3 - 128))
                             :: decode_ignore tl3
                        else decode_ignore tl2
                    | [] => []
                    end
                  else decode_ignore tl1
              | [] => []
              end
            else decode_ignore tl
        | [] => []
        end
      else decode_ignore tl
  end.

End Utf8.

Module PathLib.

(** [s.split(sep)] for a one-character separator; [cur] is the piece being
    read. *)
Fixpoint split_on (sep : char) (cur : str) (s : str) : list str :=
  match s with
  | [] => [cur]
  | c :: tl =>
      if c =? sep then cur :: split_on sep [] tl
      else split_on sep (cur ++ [c]) tl
  end.

(** The components of a POSIX path: empty components and ["."] are
    dropped. *)
Definition parts (p : str) : list str :=
  filter (λ s, s ≠ [] ∧ s ≠ lit ".") (split_on 47 [] p).

(** [Path(p).name]: the last component, or the empty string. *)
Definition name (p : str) : str := default [] (last (parts p)).

(** [s.rfind(c)]; [None] stands for -1. *)
Fixpoint rfind (c : char) (s : str) : option nat :=
  match s with
  | [] => None
  | x :: tl =>
      match rfind c tl with
      | Some i => Some (S i)
      | None => if x =? c then Some O else None
      end
  end.

(** [Path(p).suffix]: the name from its last dot on, when that dot is
    neither the first nor the last character of the name. *)
Definition suffix (p : str) : str :=
  let name := name p in
  match rfind 46 name with
  | Some i => if ((0 <? i) && (i <? length name - 1))%nat then drop i name else []
  | None => []
  end.

End PathLib.

Module Html.

(** The tree [BeautifulSoup] builds: text, the strings [get_text] leaves out
    (comments, declarations), and elements. *)
Inductive node : Type :=
  | Text (s : str)
  | Comment (s : str)
  | Tag (name : str) (children : list node).

(** [for tag in soup(names): tag.extract()]: every element with one of the
    names goes, with what it contains. *)
Fixpoint extract_tags (names : list str) (n : node) : list node :=
  match n with
  | Tag nm children =>
      if bool_decide (nm ∈ names) then []
      else [Tag nm (concat (map (extract_tags names) children))]
  | _ => [n]
  end.

(** The text strings under a node, in document order. *)
Fixpoint strings (n : node) : list str :=
  match n with
  | Text s => [s]
  | Comment _ => []
  | Tag _ children => concat (map strings children)
  end.

(** [soup.get_text(separator=sep)] *)
Definition get_text (sep : str) (soup : list node) : str :=
  join sep (concat (map strings soup)).

End Html.

(** An uploaded file: its name and its bytes ([uploaded_file.read()]). *)
Record UploadedFile : Type := Upload { name : str; read : list byte }.

Section Extractor.

(** The exceptions of the libraries. *)
Variable exn : Type.

(** pypdf: [PdfReader(io.BytesIO(bytes)).pages] and [page.extract_text()],
    which gives a string or [None]. *)
Variable page : Type.
Variable PdfReader : list byte → result exn (list page).
Variable page_extract_text : page → result exn (option str).

(** python-docx: the [text] of the paragraphs of
    [docx.Document(io.BytesIO(bytes))]. *)
Variable Document : list byte → result exn (list str).

(** [BeautifulSoup(bytes, "html.parser")]: the top-level nodes. *)
Variable BeautifulSoup : list byte → result exn (list Html.node).

(** [str.lower] on the non-ASCII character at index [i] of [s] (the Unicode
    database's mapping; it may look at the neighbours and may give several
    characters). *)
Variable unicode_lower : str → nat → str.

Definition lower (s : str) : str :=
  concat (imap (λ i c,
    if c <? 128 then [if is_upper c then c + 32 else c]
    else unicode_lower s i) s).

Definition extract_text_from_file (uploaded_file : UploadedFile)
    : result exn str :=
  let file_bytes := read uploaded_file in
  let suffix := lower (PathLib.suffix (name uploaded_file)) in
  if decide (suffix = lit ".txt") then
    Ok (Utf8.decode_ignore file_bytes)
  else if decide (suffix = lit ".pdf") then
    reader ← PdfReader file_bytes;
    pages ← mapM (λ page, t ← page_extract_text page; Ok (default [] t)) reader;
    Ok (join [10] pages)
  else if decide (suffix = lit ".docx") then
    document ← Document file_bytes;
    Ok (join [10] document)
  else if bool_decide (suffix ∈ [lit ".html"; lit ".htm"]) then
    soup ← BeautifulSoup file_bytes;
    let soup := concat (map (Html.extract_tags [lit "script"; lit "style"]) soup) in
    Ok (Html.get_text [10] soup)
  else Ok [].

End Extractor.

(** ** The page: the model call and the two button handlers *)

Section App.

Variable exn : Type.
Variable page : Type.
Variable PdfReader : list byte → result exn (list page).
Variable page_extract_text : page → result exn (option str).
Variable Document : list byte → result exn (list str).
Variable BeautifulSoup : list byte → result exn (list Html.node).
Variable unicode_lower : str → nat → str.
Variable unicode_isalnum : char → bool.

(** The question-answering pipeline of transformers: the ["answer"] of its
    result, or the exception it raises. *)
Variable qa : str → str → result exn str.

Let extract_text := extract_text_from_file exn page PdfReader
  page_extract_text Document BeautifulSoup unicode_lower.

(** The call [qa(question=..., context=...)], seen from outside. *)
Definition call_qa (question context : str) : ui exn str :=
  ([Ask question context], qa question context).

Definition get_answer (question context : str) : ui exn str :=
  let context := take 4000 context in
  answer ← call_qa question context;
  mret answer.

(** [f"\n\n===== {file.name} =====\n\n"] *)
Definition header (file : UploadedFile) : str :=
  [10; 10] ++ lit "===== " ++ name file ++ lit " =====" ++ [10; 10].

(** The loop that puts the text of all the files into one string. *)
Fixpoint read_all (all_text : str) (uploaded_files : list UploadedFile)
    : result exn str :=
  match uploaded_files with
  | [] => Ok all_text
  | file :: others =>
      text ← extract_text file;
      let all_text := all_text ++ header file in
      let all_text := all_text ++ text in
      read_all all_text others
  end.

(** The body of [if st.button("Get Answer"):]. *)
Definition get_answer_button (user_question : str)
    (uploaded_files : list UploadedFile) : ui exn unit :=
  match user_question with
  | [] => emit (Warning (lit "Please type a question first."))
  | _ :: _ =>
      match uploaded_files with
      | [] => emit (Warning (lit "Please upload at least one document."))
      | _ :: _ =>
          _ ← emit (Success (lit "Great! Reading your documents now..."));
          all_text ← lift (read_all [] uploaded_files);
          match strip all_text with
          | [] =>
              emit (Error (lit "I could not read any text from the uploaded files."))
          | _ :: _ =>
              _ ← emit (Write (lit "### Preview of the document text:"));
              _ ← emit (Write (take 500 all_text ++ lit "..." ++ [10; 10]
                               ++ lit "(Only showing the beginning.)"));
              _ ← emit (Write (lit "### Thinking about your question..."));
              answer ← get_answer user_question all_text;
              _ ← emit (Write (lit "## Answer:"));
              emit (Write answer)
          end
      end
  end.

(** [sorted(abbr_dict.keys())] *)
Definition sorted_keys (abbr_dict : gmap str str) : list str :=
  merge_sort str_le (map fst (map_to_list abbr_dict)).

(** [f"**{abbr}**: {full_term}"] *)
Definition index_line (abbr full_term : str) : str :=
  lit "**" ++ abbr ++ lit "**: " ++ full_term.

(** What the index handler writes for one dictionary.  The keys looked up
    are the dictionary's own, so [abbr_dict[abbr]] finds each of them. *)
Definition render_index (abbr_dict : gmap str str) : list event :=
  if decide (abbr_dict = ∅)
  then [Write (lit "No abbreviations found in this article.")]
  else map (λ abbr,
         let full_term := abbr_dict !!! abbr in
         Write (index_line abbr full_term)) (sorted_keys abbr_dict).

(** The loop over the articles. *)
Fixpoint index_all (uploaded_files : list UploadedFile) : ui exn unit :=
  match uploaded_files with
  | [] => mret tt
  | file :: others =>
      _ ← emit (Markdown (lit "#### Abbreviation index for **" ++ name file
                          ++ lit "**"));
      text ← lift (extract_text file);
      let abbr_dict := extract_abbreviations unicode_isalnum text in
      _ ← (render_index abbr_dict, Ok tt);
      index_all others
  end.

(** The body of [if st.button("Generate Abbreviation Index"):]. *)
Definition abbreviation_index_button (uploaded_files_abbr : list UploadedFile)
    : ui exn unit :=
  match uploaded_files_abbr with
  | [] => emit (Warning (lit "Please upload at least one article."))
  | _ :: _ => index_all uploaded_files_abbr
  end.

End App.

(** ** The pattern, read off the engine *)

(** The character before the position reached after reading [run]. *)
Fixpoint last_or (pv : option char) (run : str) : option char :=
  match run with [] => pv | x :: tl => last_or (Some x) tl end.

(** [m] repetitions are within the upper bound. *)
Definition fits (hi : option nat) (m : nat) : bool :=
  match hi with Some h => (m <=? h)%nat | None => true end.

(** The end of the pattern, [\)], after the acronym [abbr]. *)
Definition closing (abbr : str) (s : str) : option matched :=
  match s with
  | x :: e => if 41 =? x then Some ([abbr], Cursor (Some x) e) else None
  | [] => None
  end.

(** The second group and the closing parenthesis, [([A-Z]{2,10})\)]. *)
Definition acronym (s : str) : option matched :=
  let abbr := (span is_upper s).1 in
  if ((2 <=? length abbr) && (length abbr <=? 10))%nat
  then closing abbr (span is_upper s).2
  else None.

(** What follows the first group, [\s*\(([A-Z]{2,10})\)], as a function of
    the text alone. *)
Definition after_term (s : str) : option matched :=
  match (span isspace s).2 with
  | x :: s1 => if 40 =? x then acronym s1 else None
  | [] => None
  end.

(** The whole pattern at a position, without backtracking: the first group
    is the longest run it can be. *)
Definition match_direct (unicode_isalnum : char → bool) (c : cursor)
    : option matched :=
  match rest c with
  | x :: tl =>
      if at_boundary unicode_isalnum c && is_letter x then
        let run := (span is_term_char tl).1 in
        if (2 <=? length run)%nat then
          match after_term (span is_term_char tl).2 with
          | Some (caps, e) => Some ((x :: run) :: caps, e)
          | None => None
          end
        else None
      else None
  | [] => None
  end.

(** The pattern in the words of the specification: a run of words [full]
    (letters, whitespace and hyphens, three characters or more, from the
    start of a word), optional whitespace [ws], an opening parenthesis, two
    to ten uppercase ASCII letters [abbr] and a closing parenthesis; [pv] is
    the character before the run and [after] the text after the
    parenthesis. *)
Definition spec_pattern (unicode_isalnum : char → bool) (pv : option char)
    (s full ws abbr after : str) : Prop :=
  s = full ++ ws ++ 40 :: abbr ++ 41 :: after
  ∧ is_word_opt unicode_isalnum pv = false
  ∧ (∃ x tl, full = x :: tl ∧ is_letter x = true)
  ∧ Forall (λ c, is_letter c = true ∨ isspace c = true ∨ c = 45) full
  ∧ (3 ≤ length full)%nat
  ∧ Forall (λ c, isspace c = true) ws
  ∧ Forall (λ c, is_upper c = true) abbr
  ∧ (2 ≤ length abbr ≤ 10)%nat.

(** A full term as the dictionary stores it: no whitespace at either end,
    and between two words one space (U+0020) and nothing else. *)
Fixpoint tidy_from (inside : bool) (s : str) : bool :=
  match s with
  | [] => true
  | c :: tl =>
      if isspace c
      then inside && (c =? 32)
           && match tl with [] => false | d :: _ => negb (isspace d) end
           && tidy_from false tl
      else tidy_from true tl
  end.

Definition tidy (s : str) : bool := tidy_from false s.

(** A word: one character or more, none of them whitespace. *)
Definition word (w : str) : Prop :=
  w ≠ [] ∧ Forall (λ c, isspace c = false) w.


(** The strict order of [sorted] on distinct keys. *)
Definition str_lt (a b : str) : Prop := str_le a b ∧ a ≠ b.

(** The extensions the extractor reads. *)
Definition supported : list str :=
  [lit ".txt"; lit ".pdf"; lit ".docx"; lit ".html"; lit ".htm"].

Section Failure.

Variable exn : Type.
Variable page : Type.
Variable PdfReader : list byte → result exn (list page).
Variable page_extract_text : page → result exn (option str).
Variable Document : list byte → result exn (list str).
Variable BeautifulSoup : list byte → result exn (list Html.node).
Variable unicode_lower : str → nat → str.

(** The parser that the extension of [file] selects raises [e] on the bytes
    of [file]: pypdf when it opens the document or when it extracts the text
    of a page, python-docx, or BeautifulSoup. *)
Definition parser_failure (file : UploadedFile) (e : exn) : Prop :=
  let suffix := lower unicode_lower (PathLib.suffix (name file)) in
  (suffix = lit ".pdf"
   ∧ (PdfReader (read file) = Raise e
      ∨ ∃ reader, PdfReader (read file) = Ok reader
          ∧ mapM (λ page, t ← page_extract_text page; Ok (default [] t)) reader
            = Raise e))
  ∨ (suffix = lit ".docx" ∧ Document (read file) = Raise e)
  ∨ (suffix ∈ [lit ".html"; lit ".htm"] ∧ BeautifulSoup (read file) = Raise e).

End Failure.

(** ** A reference environment

    One instance of the libraries, to run the program on concrete uploads.
    It agrees with the libraries on the uploads used in this file, the empty
    byte sequence and bytes that are no document of the format: pypdf raises
    [EmptyFileError] on an empty stream and [PdfStreamError] on a stream
    that is no PDF, python-docx lets [zipfile.BadZipFile] through on bytes
    that are no zip archive, and [html.parser] reads bytes without markup as
    one text node and the empty input as an empty document.  Names and
    questions are ASCII, so the Unicode tables are not consulted. *)
Module Reference.

Inductive exn : Type :=
  | EmptyFileError
  | PdfStreamError
  | BadZipFile.

Definition page : Type := option str.

Definition PdfReader (bs : list byte) : result exn (list page) :=
  match bs with
  | [] => Raise EmptyFileError
  | _ :: _ => Raise PdfStreamError
  end.

Definition page_extract_text (p : page) : result exn (option str) := Ok p.

Definition Document (bs : list byte) : result exn (list str) :=
  Raise BadZipFile.

Definition BeautifulSoup (bs : list byte) : result exn (list Html.node) :=
  match bs with
  | [] => Ok []
  | _ :: _ => Ok [Html.Text (Utf8.decode_ignore bs)]
  end.

Definition unicode_lower (s : str) (i : nat) : str :=
  match s !! i with Some c => [c] | None => [] end.

Definition unicode_isalnum (c : char) : bool := false.

(** A model that answers every question the same way. *)
Definition qa (question context : str) : result exn str := Ok (lit "42").

(** The bytes of an ASCII string. *)
Definition bytes (s : string) : list byte := list_byte_of_string s.

Definition extract_text : UploadedFile → result exn str :=
  extract_text_from_file exn page PdfReader page_extract_text Document
    BeautifulSoup unicode_lower.

Definition Get_Answer : str → list UploadedFile → ui exn unit :=
  get_answer_button exn page PdfReader page_extract_text Document
    BeautifulSoup unicode_lower qa.

End Reference.

(** ** Predicates for the statements below *)

(** An element with one of the names occurs in the tree, at any depth. *)
Fixpoint has_tag (names : list str) (n : Html.node) : bool :=
  match n with
  | Html.Tag nm children =>
      bool_decide (nm ∈ names) || existsb (has_tag names) children
  | _ => false
  end.

(** The text strings of a tree that are not inside an element with one of
    the names, in document order. *)
Fixpoint visible_strings (names : list str) (n : Html.node) : list str :=
  match n with
  | Html.Text s => [s]
  | Html.Comment _ => []
  | Html.Tag nm children =>
      if bool_decide (nm ∈ names) then []
      else concat (map (visible_strings names) children)
  end.

(** The event is a call of the model. *)
Definition is_ask (ev : event) : bool :=
  match ev with Ask _ _ => true | _ => false end.

(** What the index handler may put on the page. *)
Definition index_output (ev : event) : Prop :=
  match ev with Warning _ | Markdown _ | Write _ => True | _ => False end.

(** A second environment: a scanned PDF of two pages without text, and a
    model that fails. *)
Module Scanned.

Definition PdfReader (bs : list byte) : result Reference.exn (list Reference.page) :=
  Ok [None; Some []].

Definition qa (question context : str) : result Reference.exn str :=
  Raise Reference.BadZipFile.

End Scanned.

(** A third environment: the tree that [html.parser] builds for the document
    [<html><head><script>var x;</script></head><body><p>Hello</p><style>p
    {}</style>world</body></html>], whatever the bytes. *)
Module Scripted.

Definition BeautifulSoup (bs : list byte)
    : result Reference.exn (list Html.node) :=
  Ok [Html.Tag (lit "html")
        [Html.Tag (lit "head")
           [Html.Tag (lit "script") [Html.Text (lit "var x;")]];
         Html.Tag (lit "body")
           [Html.Tag (lit "p") [Html.Text (lit "Hello")];
            Html.Tag (lit "style") [Html.Text (lit "p {}")];
            Html.Text (lit "world")]]].

End Scripted.

(** * Properties *)

(** ** Runs of characters *)

Section SpanFacts.

Variable p : char → bool.

Lemma span_app (s : str) : (span p s).1 ++ (span p s).2 = s.
Proof.
  induction s as [|c tl IH]; simpl; [done|].
  destruct (p c); [|done].
  destruct (span p tl) as [run after]; simpl in *. by rewrite IH.
Qed.

Lemma span_run (s : str) : Forall (λ c, p c = true) (span p s).1.
Proof.
  induction s as [|c tl IH]; simpl; [constructor|].
  destruct (p c) eqn:Hc; [|constructor].
  destruct (span p tl) as [run after]; simpl in *. by constructor.
Qed.

Lemma span_stop (s : str) c tl : (span p s).2 = c :: tl → p c = false.
Proof.
  induction s as [|d s IH]; simpl; [done|].
  destruct (p d) eqn:Hd.
  - destruct (span p s) as [run after]; simpl in *. exact IH.
  - simpl. by intros [= -> _].
Qed.

Lemma span_exact (run after : str) :
  Forall (λ c, p c = true) run →
  match after with [] => True | c :: _ => p c = false end →
  span p (run ++ after) = (run, after).
Proof.
  intros Hrun Hafter. induction Hrun as [|c run Hc _ IH]; simpl.
  - destruct after as [|c tl]; simpl; [done|]. by rewrite Hafter.
  - by rewrite Hc, IH.
Qed.

Lemma span_skip (s : str) c : p c = false → span p (c :: s) = ([], c :: s).
Proof. intros Hc; simpl. by rewrite Hc. Qed.

End SpanFacts.

Lemma last_or_cons pv x run : last_or pv (x :: run) = last_or (Some x) run.
Proof. reflexivity. Qed.

Lemma space_is_term_char c : isspace c = true → is_term_char c = true.
Proof. unfold is_term_char. intros ->. by rewrite orb_true_r. Qed.

Lemma upper_not_space c : is_upper c = true → isspace c = false.
Proof.
  unfold is_upper, isspace. intros H.
  apply andb_true_iff in H as [H1 H2].
  apply N.leb_le in H1, H2.
  repeat match goal with
  | |- context [?a <=? ?b] => destruct (N.leb_spec a b); try lia
  | |- context [?a =? ?b] => destruct (N.eqb_spec a b); try lia
  end; done.
Qed.

(** ** The engine *)

Section EngineFacts.

Variable unicode_isalnum : char → bool.

(** When what follows the repetition cannot start with an item, nothing is
    given back: the repetition takes the whole run or fails. *)
Lemma greedy_rejecting p lo hi n pv s (k : cont) :
  (∀ pv' x tl, p x = true → k (Cursor pv' (x :: tl)) = None) →
  fits hi n = true →
  greedy p lo hi n pv s k =
    if ((lo <=? n + length (span p s).1)%nat && fits hi (n + length (span p s).1))
    then k (Cursor (last_or pv (span p s).1) (span p s).2)
    else None.
Proof.
  intros Hrej. revert n pv.
  induction s as [|x tl IH]; intros n pv Hfit; simpl.
  - rewrite Nat.add_0_r, Hfit, andb_true_r. done.
  - destruct (p x) eqn:Hx; simpl.
    + destruct (span p tl) as [run after] eqn:Hspan; simpl in *.
      replace (n + S (length run))%nat with (S n + length run)%nat by lia.
      destruct (below hi n) eqn:Hb.
      * rewrite IH.
        2:{ destruct hi as [h|]; [|done]. unfold fits, below in *.
            apply Nat.ltb_lt in Hb. apply Nat.leb_le. lia. }
        destruct (_ && _); [|].
        { destruct (k _) eqn:Hk; [done|].
          rewrite (Hrej _ _ _ Hx). by destruct (lo <=? n)%nat. }
        rewrite (Hrej _ _ _ Hx). by destruct (lo <=? n)%nat.
      * rewrite (Hrej _ _ _ Hx).
        destruct hi as [h|]; [|done]. unfold fits, below in *.
        apply Nat.ltb_ge in Hb. apply Nat.leb_le in Hfit.
        replace (S n + length run <=? h)%nat with false.
        2:{ symmetry. apply Nat.leb_gt. lia. }
        rewrite andb_false_r. by destruct (lo <=? n)%nat.
    + rewrite Nat.add_0_r, Hfit, andb_true_r. done.
Qed.

(** An unbounded repetition whose continuation, when it succeeds after a
    shorter run, also succeeds after the whole run: the whole run is what the
    repetition takes. *)
Lemma greedy_longest p lo n pv s (k : cont) :
  (∀ j, (j < length (span p s).1)%nat →
     is_Some (k (Cursor (last_or pv (take j (span p s).1))
                        (drop j (span p s).1 ++ (span p s).2))) →
     is_Some (k (Cursor (last_or pv (span p s).1) (span p s).2))) →
  greedy p lo None n pv s k =
    if (lo <=? n + length (span p s).1)%nat
    then k (Cursor (last_or pv (span p s).1) (span p s).2)
    else None.
Proof.
  revert n pv.
  induction s as [|x tl IH]; intros n pv Hk; simpl.
  - by rewrite Nat.add_0_r.
  - simpl in Hk. destruct (p x) eqn:Hx; simpl.
    + pose proof (span_app p tl) as Happ.
      destruct (span p tl) as [run after] eqn:Hspan; simpl in *.
      replace (n + S (length run))%nat with (S n + length run)%nat by lia.
      rewrite IH.
      2:{ intros j Hj Hsome. specialize (Hk (S j) ltac:(lia)).
          simpl in Hk. by apply Hk. }
      destruct (lo <=? S n + length run)%nat eqn:Hlo.
      * destruct (k (Cursor (last_or (Some x) run) after)) eqn:Hend; [done|].
        destruct (lo <=? n)%nat; [|done].
        specialize (Hk 0%nat ltac:(lia)). simpl in Hk.
        rewrite Happ in Hk.
        destruct (k (Cursor pv (x :: tl))) eqn:Hhere; [|done].
        destruct Hk as [? [=]]. by eexists.
      * apply Nat.leb_gt in Hlo.
        replace (lo <=? n)%nat with false; [done|].
        symmetry. apply Nat.leb_gt. lia.
    + by rewrite Nat.add_0_r.
Qed.

End EngineFacts.

(** ** The pattern *)

Lemma capture_app pv pv' (run after : str) :
  capture (Cursor pv (run ++ after)) (Cursor pv' after) = run.
Proof.
  unfold capture; simpl. rewrite length_app.
  replace (length run + length after - length after)%nat with (length run) by lia.
  apply take_app_length.
Qed.

Lemma letter_is_term_char c : is_letter c = true → is_term_char c = true.
Proof. unfold is_term_char. by intros ->. Qed.

Lemma upper_is_letter c : is_upper c = true → is_letter c = true.
Proof. unfold is_letter. by intros ->. Qed.

Lemma term_char_cases c :
  is_term_char c = true ↔ is_letter c = true ∨ isspace c = true ∨ c = 45.
Proof.
  unfold is_term_char. rewrite !orb_true_iff, N.eqb_eq. tauto.
Qed.

Lemma term_char_not_open c : is_term_char c = true → (40 =? c) = false.
Proof.
  intros H. destruct (N.eqb_spec 40 c) as [<-|]; [|done]. by vm_compute in H.
Qed.

Lemma term_char_not_close c : is_term_char c = true → (41 =? c) = false.
Proof.
  intros H. destruct (N.eqb_spec 41 c) as [<-|]; [|done]. by vm_compute in H.
Qed.

Section PatternFacts.

Variable unicode_isalnum : char → bool.


Lemma letter_is_word c : is_letter c = true → is_word unicode_isalnum c = true.
Proof.
  intros H. unfold is_word. rewrite H; simpl.
  destruct (N.ltb_spec c 128) as [|Hc]; [done|].
  unfold is_letter, is_upper, is_lower in H.
  apply orb_true_iff in H as [H|H]; apply andb_true_iff in H as [_ H];
    apply N.leb_le in H; lia.
Qed.

(** [([A-Z]{2,10})\)] *)
Lemma exec_acronym pv s :
  exec unicode_isalnum (Seq (Group (Greedy is_upper 2 (Some 10%nat))) (Item (N.eqb 41)))
       (Cursor pv s) (λ c', Some ([], c'))
  = acronym s.
Proof.
  cbn [Re.exec prev rest]. rewrite greedy_rejecting; [|
    by intros pv' x tl Hx; cbn [Re.exec rest];
       rewrite (term_char_not_close x (letter_is_term_char _ (upper_is_letter _ Hx)))
    | done].
  unfold acronym. cbn [Nat.add fits].
  destruct (_ && _); [|done].
  pose proof (span_app is_upper s) as Happ.
  destruct (span is_upper s) as [run after]; cbn [fst snd rest prev] in *. subst s.
  rewrite capture_app. unfold closing.
  destruct after as [|x e]; [done|]. by destruct (41 =? x).
Qed.

(** [\s*\(([A-Z]{2,10})\)] *)
Lemma exec_after_term pv s :
  exec unicode_isalnum (Seq (Greedy isspace 0 None)
       (Seq (Item (N.eqb 40))
       (Seq (Group (Greedy is_upper 2 (Some 10%nat))) (Item (N.eqb 41)))))
       (Cursor pv s) (λ c', Some ([], c'))
  = after_term s.
Proof.
  cbn [Re.exec prev rest]. rewrite greedy_rejecting; [|
    by intros pv' x tl Hx; cbn [Re.exec rest];
       rewrite (term_char_not_open x (space_is_term_char _ Hx))
    | done].
  cbn [fits andb Nat.leb]. unfold after_term.
  destruct (span isspace s).2 as [|x s1]; [done|]. cbn [rest].
  destruct (40 =? x); [|done].
  apply (exec_acronym (Some x) s1).
Qed.

(** Whitespace, letters and hyphens before the parenthesis belong to the
    first group: leaving some of them to [\s*] changes nothing to what
    follows. *)
Lemma after_term_skip (l s : str) r :
  Forall (λ c, is_term_char c = true) l →
  after_term (l ++ s) = Some r → after_term s = Some r.
Proof.
  induction 1 as [|x l Hx _ IH]; [done|].
  rewrite <-app_comm_cons. unfold after_term at 1. cbn [span].
  destruct (isspace x) eqn:Hsp.
  - destruct (span isspace (l ++ s)) as [ws rest'] eqn:Hspan. cbn [snd].
    intros Hr. apply IH. unfold after_term. by rewrite Hspan.
  - cbn [snd]. by rewrite (term_char_not_open x Hx).
Qed.

(** The backtracking matcher on the pattern is the direct reading. *)
Lemma match_here_direct c :
  match_here unicode_isalnum pattern c = match_direct unicode_isalnum c.
Proof.
  unfold Re.match_here, match_direct, pattern.
  set (tailp := Seq (Greedy isspace 0 None) _).
  assert (Htail : ∀ pv s, Re.exec unicode_isalnum tailp (Cursor pv s)
                            (λ c', Some ([], c')) = after_term s)
    by (intros; apply exec_after_term).
  clearbody tailp.
  cbn [Re.exec]. destruct c as [pv s]; cbn [rest prev].
  destruct (at_boundary unicode_isalnum _) eqn:Hb; [|by destruct s].
  destruct s as [|x tl]; [done|]. simpl andb.
  destruct (is_letter x) eqn:Hx; [|done].
  rewrite greedy_longest.
  - cbn [Nat.add]. destruct (2 <=? _)%nat; [|done].
    pose proof (span_app is_term_char tl) as Happ.
    rewrite Htail.
    destruct (after_term _) as [[caps e]|]; [|done].
    rewrite <-Happ at 1.
    by rewrite app_comm_cons, capture_app.
  - intros j Hj. rewrite !Htail.
    intros [[caps e] Hsome].
    destruct (after_term (drop j _ ++ _)) as [r|] eqn:Hr; [|done].
    apply after_term_skip in Hr.
    + rewrite Hr. by destruct r; eexists.
    + apply Forall_drop, span_run.
Qed.

End PatternFacts.

Lemma acronym_Some (s : str) (r : matched) :
  acronym s = Some r ↔
  ∃ abbr post, s = abbr ++ 41 :: post
    ∧ Forall (λ c, is_upper c = true) abbr
    ∧ (2 ≤ length abbr ≤ 10)%nat
    ∧ r = ([abbr], Cursor (Some 41) post).
Proof.
  unfold acronym. split.
  - pose proof (span_app is_upper s) as Happ.
    pose proof (span_run is_upper s) as Hrun.
    destruct (span is_upper s) as [abbr s2]; cbn [fst snd] in *.
    destruct (_ && _) eqn:Hlen; [|done].
    apply andb_true_iff in Hlen as [H2 H10].
    apply Nat.leb_le in H2, H10.
    unfold closing. destruct s2 as [|x post]; [done|].
    destruct (N.eqb_spec 41 x) as [<-|]; [|done].
    intros [= <-]. by exists abbr, post.
  - intros (abbr & post & -> & Hup & [H2 H10] & ->).
    rewrite span_exact; [|done|done]. cbn [fst snd closing].
    apply Nat.leb_le in H2, H10. unfold str, char in *. by rewrite H2, H10.
Qed.

Lemma after_term_open (s : str) : after_term (40 :: s) = acronym s.
Proof. reflexivity. Qed.

Lemma after_term_stop (s : str) (r : matched) :
  match s with [] => True | c :: _ => is_term_char c = false end →
  after_term s = Some r → ∃ s1, s = 40 :: s1 ∧ acronym s1 = Some r.
Proof.
  destruct s as [|c s1]; [done|]. intros Hc.
  unfold after_term. cbn [span].
  destruct (isspace c) eqn:Hsp.
  { by rewrite (space_is_term_char _ Hsp) in Hc. }
  cbn [snd]. destruct (N.eqb_spec 40 c) as [<-|]; [|done]. by exists s1.
Qed.

Section MatchFacts.

Variable unicode_isalnum : char → bool.

(** What a match of the pattern at a position looks like. *)
Lemma match_here_inv pv s caps e :
  match_here unicode_isalnum pattern (Cursor pv s) = Some (caps, e) →
  ∃ x run abbr post,
    s = x :: run ++ 40 :: abbr ++ 41 :: post
    ∧ caps = [x :: run; abbr] ∧ e = Cursor (Some 41) post
    ∧ is_word_opt unicode_isalnum pv = false
    ∧ is_letter x = true
    ∧ Forall (λ c, is_term_char c = true) run ∧ (2 ≤ length run)%nat
    ∧ Forall (λ c, is_upper c = true) abbr ∧ (2 ≤ length abbr ≤ 10)%nat.
Proof.
  rewrite match_here_direct. unfold match_direct. cbn [rest].
  destruct s as [|x tl]; [done|].
  destruct (at_boundary _ _) eqn:Hb; [|done].
  destruct (is_letter x) eqn:Hx; [|done]. cbn [andb].
  destruct (2 <=? _)%nat eqn:Hlen; [|done]. apply Nat.leb_le in Hlen.
  pose proof (span_app is_term_char tl) as Happ.
  pose proof (span_run is_term_char tl) as Hrun.
  pose proof (span_stop is_term_char tl) as Hstop.
  destruct (span is_term_char tl) as [run after]; cbn [fst snd] in *.
  destruct (after_term after) as [[caps' e']|] eqn:Hafter; [|done].
  intros [= <- <-].
  apply after_term_stop in Hafter as (s1 & -> & Hacr).
  2:{ destruct after as [|c after']; [done|]. by eapply Hstop. }
  apply acronym_Some in Hacr as (abbr & post & -> & Hup & Hab & [= -> ->]).
  exists x, run, abbr, post. split_and!; try done; try apply Hab.
  - by rewrite <-Happ.
  - unfold at_boundary in Hb. cbn [prev rest head is_word_opt] in Hb.
    rewrite (letter_is_word _ _ Hx) in Hb.
    by destruct (is_word_opt unicode_isalnum pv).
Qed.

(** The pattern matches where the specification says, and nowhere else. *)
Lemma match_here_spec pv s g1 abbr e :
  match_here unicode_isalnum pattern (Cursor pv s) = Some ([g1; abbr], e) ↔
  ∃ full ws after,
    spec_pattern unicode_isalnum pv s full ws abbr after
    ∧ g1 = full ++ ws ∧ e = Cursor (Some 41) after.
Proof.
  split.
  - intros H. apply match_here_inv in H
      as (x & run & abbr' & post & -> & [= -> ->] & -> & Hpv & Hx & Hrun & Hlen & Hup & Hab).
    exists (x :: run), [], post. rewrite app_nil_r.
    split_and!; try done. unfold spec_pattern.
    split_and!; try done; try apply Hab.
    + by exists x, run.
    + constructor; [by left|].
      eapply Forall_impl; [exact Hrun|]. intros c. by rewrite term_char_cases.
    + unfold str, char in *. simpl. lia.
  - intros (full & ws & after & (-> & Hpv & (x & tl & -> & Hx) & Hfull & Hlen
                                  & Hws & Hup & Hab) & -> & ->).
    rewrite match_here_direct. unfold match_direct. cbn [rest].
    rewrite <-app_comm_cons.
    unfold at_boundary. cbn [prev rest head is_word_opt].
    rewrite Hpv, (letter_is_word _ _ Hx), Hx. cbn [xorb andb].
    rewrite (app_assoc tl ws).
    rewrite span_exact; [| |done].
    2:{ apply Forall_app. split.
        - apply Forall_cons in Hfull as [_ Hfull].
          eapply Forall_impl; [exact Hfull|]. intros c. by rewrite term_char_cases.
        - eapply Forall_impl; [exact Hws|]. apply space_is_term_char. }
    cbn [fst snd]. simpl in Hlen.
    replace (2 <=? length (tl ++ ws))%nat with true.
    2:{ symmetry. apply Nat.leb_le. rewrite length_app.
        unfold str, char in *. lia. }
    rewrite after_term_open.
    replace (acronym (abbr ++ 41 :: after))
      with (Some ([abbr], Cursor (Some 41) after)); [done|].
    symmetry. apply acronym_Some. by exists abbr, after.
Qed.

(** Every element of the scan is a match at its position of the text. *)
Lemma scan_sound r pv s pos skip i caps :
  (i, caps) ∈ scan unicode_isalnum r pv s pos skip →
  ∃ pre post e, s = pre ++ post ∧ i = (pos + length pre)%nat
    ∧ match_here unicode_isalnum r (Cursor (last_or pv pre) post) = Some (caps, e).
Proof.
  revert pv pos skip. induction s as [|x tl IH]; intros pv pos skip; simpl.
  - destruct skip; [|by intros ?%elem_of_nil].
    destruct (match_here _ _ _) as [[caps' e]|] eqn:Hm; [|by intros ?%elem_of_nil].
    intros [= -> ->]%list_elem_of_singleton. exists [], [], e.
    split_and!; [done|simpl; lia|done].
  - assert (Hstep : ∀ n, (i, caps) ∈ scan unicode_isalnum r (Some x) tl (S pos) n →
        ∃ pre post e, x :: tl = pre ++ post ∧ i = (pos + length pre)%nat
          ∧ match_here unicode_isalnum r (Cursor (last_or pv pre) post)
            = Some (caps, e)).
    { intros n (pre & post & e & -> & -> & Hm)%IH. exists (x :: pre), post, e.
      split_and!; [done|simpl; lia|done]. }
    destruct skip; [|by apply Hstep].
    destruct (match_here _ _ _) as [[caps' e]|] eqn:Hm; [|by apply Hstep].
    intros [[= -> ->]|Hin]%elem_of_cons; [|by eapply Hstep].
    exists [], (x :: tl), e. split_and!; [done|simpl; lia|done].
Qed.

(** The scan lists its matches from left to right. *)
Lemma scan_from r pv s pos skip :
  Forall (λ m, pos ≤ m.1)%nat (scan unicode_isalnum r pv s pos skip).
Proof.
  revert pv pos skip. induction s as [|x tl IH]; intros pv pos skip; simpl.
  - destruct skip; [|constructor].
    destruct (match_here _ _ _) as [[caps e]|]; repeat constructor.
  - assert (Htl : ∀ n, Forall (λ m, pos ≤ m.1)%nat
                         (scan unicode_isalnum r (Some x) tl (S pos) n)).
    { intros n. eapply Forall_impl; [apply IH|]. simpl. lia. }
    destruct skip; [|apply Htl].
    destruct (match_here _ _ _) as [[caps e]|]; [|apply Htl].
    constructor; [done|apply Htl].
Qed.

Lemma scan_ordered r pv s pos skip :
  StronglySorted lt (scan unicode_isalnum r pv s pos skip).*1.
Proof.
  revert pv pos skip. induction s as [|x tl IH]; intros pv pos skip; simpl.
  - destruct skip; [|constructor].
    destruct (match_here _ _ _) as [[caps e]|]; repeat constructor.
  - destruct skip; [|apply IH].
    destruct (match_here _ _ _) as [[caps e]|]; [|apply IH].
    simpl. constructor; [apply IH|].
    apply Forall_fmap. eapply Forall_impl; [apply scan_from|]. simpl. lia.
Qed.

(** The pairs of [findall] are the two groups of matches of the pattern. *)
Lemma findall_sound text full abbr :
  (full, abbr) ∈ findall unicode_isalnum pattern text →
  ∃ pre post e, text = pre ++ post
    ∧ match_here unicode_isalnum pattern (Cursor (last_or None pre) post)
      = Some ([full; abbr], e).
Proof.
  unfold findall. intros ([i caps] & Heq & Hin)%list_elem_of_fmap.
  apply scan_sound in Hin as (pre & post & e & -> & _ & Hm).
  pose proof Hm as Hinv. apply match_here_inv in Hinv
    as (x & run & abbr' & post' & _ & -> & _).
  simpl in Heq. injection Heq as -> ->. by exists pre, post, e.
Qed.

End MatchFacts.

(** ** Cleaning a full term *)

Lemma lstrip_id (s : str) :
  match s with [] => True | c :: _ => isspace c = false end → lstrip s = s.
Proof. destruct s as [|c tl]; [done|]. simpl. by intros ->. Qed.

Lemma strip_id (s : str) : Forall (λ c, isspace c = false) s → strip s = s.
Proof.
  intros Hs. unfold strip, rstrip.
  rewrite (lstrip_id s) by (by destruct Hs).
  rewrite lstrip_id; [apply reverse_involutive|].
  apply Forall_reverse in Hs. by destruct Hs.
Qed.

Lemma split_from_words cur s :
  Forall (λ c, isspace c = false) cur → Forall word (split_from cur s).
Proof.
  revert cur. induction s as [|c tl IH]; intros cur Hcur; simpl.
  - destruct cur; [constructor|]. constructor; [by split|constructor].
  - destruct (isspace c) eqn:Hc.
    + destruct cur; [by apply IH|].
      constructor; [by split|by apply IH].
    + apply IH. apply Forall_app. by repeat constructor.
Qed.

Lemma split_words s : Forall word (split s).
Proof. by apply split_from_words. Qed.

Lemma tidy_from_word b w t :
  Forall (λ c, isspace c = false) w →
  tidy_from b (w ++ t) = match w with [] => tidy_from b t | _ => tidy_from true t end.
Proof.
  intros Hw. revert b. induction Hw as [|c w Hc _ IH]; intros b; [done|].
  simpl. rewrite Hc, IH. by destruct w.
Qed.

Lemma tidy_join b ws : Forall word ws → tidy_from b (join [32] ws) = true.
Proof.
  intros Hws. revert b. induction Hws as [|w ws [Hne Hw] Hws IH]; intros b; [done|].
  destruct ws as [|w2 ws].
  - simpl. rewrite <-(app_nil_r w), tidy_from_word by done. by destruct w.
  - change (join [32] (w :: w2 :: ws)) with (w ++ 32 :: join [32] (w2 :: ws)).
    rewrite tidy_from_word by done. destruct w as [|c w]; [done|].
    cbn [tidy_from]. change (isspace 32) with true. cbn [andb].
    rewrite IH, andb_true_r.
    apply Forall_cons in Hws as [[Hne2 Hw2] _].
    destruct w2 as [|d w2]; [done|].
    apply Forall_cons in Hw2 as [Hd _].
    destruct ws; simpl; by rewrite Hd.
Qed.

Lemma split_from_word cur w t :
  Forall (λ c, isspace c = false) w →
  split_from cur (w ++ t) = split_from (cur ++ w) t.
Proof.
  intros Hw. revert cur. induction Hw as [|c w Hc _ IH]; intros cur.
  - by rewrite app_nil_r.
  - simpl. rewrite Hc, IH. by rewrite <-app_assoc.
Qed.

Lemma split_join ws : Forall word ws → split (join [32] ws) = ws.
Proof.
  unfold split. induction 1 as [|w ws [Hne Hw] Hws IH]; [done|].
  destruct ws as [|w2 ws].
  - simpl. rewrite <-(app_nil_r w) at 1. rewrite split_from_word by done.
    simpl. by destruct w.
  - change (join [32] (w :: w2 :: ws)) with (w ++ 32 :: join [32] (w2 :: ws)).
    rewrite split_from_word by done. cbn [split_from app].
    change (isspace 32) with true. rewrite IH. by destruct w.
Qed.

(** [clean] gives the one tidy string with the words of its argument. *)
Lemma clean_tidy s : tidy (clean s) = true.
Proof. apply tidy_join, split_words. Qed.

Lemma clean_words s : split (clean s) = split s.
Proof. apply split_join, split_words. Qed.

(** ** The dictionary *)

Lemma list_find_agree {A} (P Q : A → Prop) `{!∀ x, Decision (P x)}
    `{!∀ x, Decision (Q x)} (l : list A) :
  Forall (λ x, P x ↔ Q x) l → list_find P l = list_find Q l.
Proof.
  induction 1 as [|x l Hx _ IH]; [done|]. simpl.
  rewrite IH. destruct (decide (P x)), (decide (Q x)); tauto.
Qed.

Lemma foldl_record_lookup (ms : list (str * str)) (d : gmap str str) (k : str) :
  foldl record_match d ms !! k =
  match d !! k with
  | Some v => Some v
  | None => (λ im, clean im.2.1) <$> list_find (λ m, strip m.2 = k) ms
  end.
Proof.
  revert d. induction ms as [|[full abbr] ms IH]; intros d; simpl.
  - by destruct (d !! k).
  - rewrite IH. unfold record_match.
    destruct (decide (strip abbr = k)) as [<-|Hne].
    + destruct (d !! strip abbr) eqn:Hd; [by rewrite Hd|].
      by rewrite lookup_insert_eq.
    + assert (Hskip : (λ im : nat * (str * str), clean im.2.1)
                        <$> (prod_map S id <$> list_find (λ m, strip m.2 = k) ms)
                      = (λ im, clean im.2.1) <$> list_find (λ m, strip m.2 = k) ms).
      { by destruct (list_find _ ms) as [[i m]|]. }
      destruct (d !! strip abbr) eqn:Hd.
      * destruct (d !! k); [done|]. by rewrite Hskip.
      * rewrite lookup_insert_ne by done.
        destruct (d !! k); [done|]. by rewrite Hskip.
Qed.

Section DictionaryFacts.

Variable unicode_isalnum : char → bool.

Lemma findall_acronym text full abbr :
  (full, abbr) ∈ findall unicode_isalnum pattern text →
  Forall (λ c, is_upper c = true) abbr ∧ (2 ≤ length abbr ≤ 10)%nat.
Proof.
  intros (pre & post & e & _ & Hm)%findall_sound.
  apply match_here_inv in Hm
    as (x & run & abbr' & post' & _ & [= _ <-] & _ & _ & _ & _ & _ & Hup & Hlen).
  done.
Qed.

Lemma findall_strip text :
  Forall (λ m : str * str, strip m.2 = m.2) (findall unicode_isalnum pattern text).
Proof.
  apply Forall_forall. intros [full abbr] [Hup _]%findall_acronym.
  apply strip_id. eapply Forall_impl; [exact Hup|]. apply upper_not_space.
Qed.

(** The dictionary binds an acronym to the cleaned full term of the first
    match with that acronym. *)
Lemma extract_lookup text k :
  extract_abbreviations unicode_isalnum text !! k =
  (λ im, clean im.2.1)
    <$> list_find (λ m, m.2 = k) (findall unicode_isalnum pattern text).
Proof.
  unfold extract_abbreviations. rewrite foldl_record_lookup, lookup_empty.
  f_equal. apply list_find_agree.
  eapply Forall_impl; [apply findall_strip|]. simpl. by intros m ->.
Qed.

Lemma extract_entry text k v :
  extract_abbreviations unicode_isalnum text !! k = Some v →
  ∃ full, (full, k) ∈ findall unicode_isalnum pattern text ∧ v = clean full.
Proof.
  rewrite extract_lookup.
  destruct (list_find _ _) as [[i [full abbr]]|] eqn:Hfind; [|done].
  intros [= <-]. apply list_find_Some in Hfind as (Hi & Habbr & _).
  simpl in Habbr. subst abbr. exists full. split; [|done].
  by eapply list_elem_of_lookup_2.
Qed.

End DictionaryFacts.

(** ** No occurrence is lost *)

Lemma stop_unique (p : char → bool) (l1 l2 r1 r2 : str) a b :
  Forall (λ c, p c = true) l1 → Forall (λ c, p c = true) l2 →
  p a = false → p b = false →
  l1 ++ a :: r1 = l2 ++ b :: r2 → l1 = l2 ∧ a = b ∧ r1 = r2.
Proof.
  intros H1 H2 Ha Hb Heq.
  pose proof (span_exact p l1 (a :: r1) H1 Ha) as E1.
  pose proof (span_exact p l2 (b :: r2) H2 Hb) as E2.
  rewrite Heq, E2 in E1. by injection E1 as -> -> ->.
Qed.

Lemma upper_is_term_char c : is_upper c = true → is_term_char c = true.
Proof. intros H. by apply letter_is_term_char, upper_is_letter. Qed.

(** Two matches of the pattern that overlap end at the same parenthesis:
    they have the same acronym. *)
Lemma overlap_same_acronym (run abbr' post' pre' post run2 abbr post2 : str) x2 :
  pre' ++ post = run ++ 40 :: abbr' ++ 41 :: post' →
  post = x2 :: run2 ++ 40 :: abbr ++ 41 :: post2 →
  (length post' < length post)%nat →
  Forall (λ c, is_term_char c = true) run →
  Forall (λ c, is_upper c = true) abbr' →
  is_letter x2 = true →
  Forall (λ c, is_term_char c = true) run2 →
  Forall (λ c, is_upper c = true) abbr →
  abbr' = abbr.
Proof.
  intros H1 H2 Hlen Hrun Hup' Hx2 Hrun2 Hup.
  assert (Hterm : Forall (λ c, is_term_char c = true) (x2 :: run2)).
  { constructor; [by apply letter_is_term_char|done]. }
  apply app_eq_inv in H1 as [(k & Hpre & HR) | (k & Hrun' & Hpost')].
  - destruct k as [|c k].
    + simpl in HR. rewrite <-HR in H2. injection H2 as <- _. by vm_compute in Hx2.
    + injection HR as <- HR.
      apply app_eq_inv in HR as [(k0 & Hab & Hp) | (k0 & Hk & Hp)].
      * rewrite Hp, (app_comm_cons run2 _ x2) in H2.
        apply stop_unique with (p := is_term_char) in H2 as (_ & [=] & _);
          try done.
        rewrite Hab in Hup'. apply Forall_app in Hup' as [_ Hk0].
        eapply Forall_impl; [exact Hk0|]. apply upper_is_term_char.
      * destruct k0 as [|c k0].
        -- simpl in Hp. rewrite <-Hp in H2. injection H2 as <- _.
           by vm_compute in Hx2.
        -- injection Hp as _ ->. rewrite length_app in Hlen. lia.
  - rewrite Hpost', (app_comm_cons run2 _ x2) in H2.
    apply stop_unique with (p := is_term_char) in H2 as (_ & _ & H2);
      try done.
    + apply stop_unique with (p := is_upper) in H2 as (? & _); done.
    + rewrite Hrun' in Hrun. by apply Forall_app in Hrun as [_ ?].
Qed.

Section Completeness.

Variable unicode_isalnum : char → bool.

(** A match of the pattern at a position of the text gives an element of the
    scan with the same acronym: the match itself, or the match before it that
    covers its start. *)
Lemma scan_complete pre post pv pos skip g1 abbr e :
  match_here unicode_isalnum pattern (Cursor (last_or pv pre) post)
    = Some ([g1; abbr], e) →
  (skip ≤ length pre)%nat →
  ∃ i g1', (i, [g1'; abbr])
           ∈ scan unicode_isalnum pattern pv (pre ++ post) pos skip.
Proof.
  intros Hm. revert pv pos skip Hm.
  induction pre as [|y pre' IH]; intros pv pos skip Hm Hskip.
  - cbn [app last_or] in *.
    assert (skip = 0)%nat as -> by (simpl in Hskip; lia).
    destruct post as [|x tl]; cbn [scan]; rewrite Hm; exists pos, g1; by left.
  - cbn [app scan].
    destruct skip as [|n].
    2:{ apply IH; [done|simpl in Hskip; lia]. }
    destruct (match_here _ _ (Cursor pv _)) as [[caps' e']|] eqn:Hfirst.
    2:{ apply IH; [done|lia]. }
    destruct (decide (length (y :: pre' ++ post) - length (rest e') - 1
                      ≤ length pre')%nat) as [Hle|Hgt].
    { destruct (IH (Some y) (S pos) _ Hm Hle) as (i & g1' & Hin).
      exists i, g1'. by right. }
    exists pos. pose proof Hm as Hinv.
    apply match_here_inv in Hinv
      as (x2 & run2 & abbr2 & post2 & Hpost & [= _ <-] & _ & _ & Hx2 & Hrun2
          & _ & Hup2 & _).
    apply match_here_inv in Hfirst
      as (x & run & abbr' & post' & Htext & -> & -> & _ & _ & Hrun & _ & Hup' & _).
    injection Htext as <- Htext. cbn [rest] in Hgt.
    assert (abbr' = abbr) as ->.
    { eapply overlap_same_acronym; try done.
      simpl in Hgt. rewrite length_app in Hgt. unfold str, char in *. lia. }
    exists (y :: run). by left.
Qed.

Lemma findall_complete pre post g1 abbr e :
  match_here unicode_isalnum pattern (Cursor (last_or None pre) post)
    = Some ([g1; abbr], e) →
  ∃ g1', (g1', abbr) ∈ findall unicode_isalnum pattern (pre ++ post).
Proof.
  intros Hm. destruct (scan_complete pre post None 0 0 g1 abbr e Hm)
    as (i & g1' & Hin); [lia|].
  exists g1'. unfold findall.
  apply list_elem_of_fmap. by exists (i, [g1'; abbr]).
Qed.

(** Every occurrence of the pattern gives its acronym an entry. *)
Lemma occurrence_has_entry pre post full ws abbr after :
  spec_pattern unicode_isalnum (last_or None pre) post full ws abbr after →
  is_Some (extract_abbreviations unicode_isalnum (pre ++ post) !! abbr).
Proof.
  intros Hspec.
  assert (Hm : match_here unicode_isalnum pattern (Cursor (last_or None pre) post)
               = Some ([full ++ ws; abbr], Cursor (Some 41) after)).
  { apply match_here_spec. by exists full, ws, after. }
  apply findall_complete in Hm as (g1' & Hin).
  rewrite extract_lookup. apply fmap_is_Some.
  by apply (list_find_elem_of _ _ (g1', abbr)).
Qed.

(** Every entry comes from an occurrence of the pattern. *)
Lemma entry_has_occurrence text k v :
  extract_abbreviations unicode_isalnum text !! k = Some v →
  ∃ pre post full ws after,
    text = pre ++ post
    ∧ spec_pattern unicode_isalnum (last_or None pre) post full ws k after
    ∧ v = clean (full ++ ws).
Proof.
  intros (g1 & Hin & ->)%extract_entry.
  apply findall_sound in Hin as (pre & post & e & -> & Hm).
  apply match_here_spec in Hm as (full & ws & after & Hspec & -> & _).
  by exists pre, post, full, ws, after.
Qed.

End Completeness.

(** ** The abbreviation matcher: what the specification says of it *)

(** C4: the matches are scanned from left to right (the scan lists them by
    increasing start position, and [findall] keeps that order), and for every
    text and every acronym the dictionary binds the acronym to the cleaned
    full term of the first match with that acronym, and to nothing when no
    match has it; later matches of the acronym do not change the entry, as in
    ["alpha term (AT) and alpha thing (AT)"]. *)
Theorem first_match_wins (unicode_isalnum : char → bool) (text abbr : str) :
  extract_abbreviations unicode_isalnum text !! abbr
    = (λ im, clean im.2.1)
        <$> list_find (λ m, m.2 = abbr) (findall unicode_isalnum pattern text)
  ∧ StronglySorted lt (scan unicode_isalnum pattern None text 0 0).*1
  ∧ findall unicode_isalnum pattern text
    = (λ m, (nth 0 m.2 [], nth 1 m.2 []))
        <$> scan unicode_isalnum pattern None text 0 0
  ∧ findall unicode_isalnum pattern (lit "alpha term (AT) and alpha thing (AT)")
    = [(lit "alpha term ", lit "AT"); (lit "and alpha thing ", lit "AT")]
  ∧ extract_abbreviations unicode_isalnum
      (lit "alpha term (AT) and alpha thing (AT)")
    = {[ lit "AT" := lit "alpha term" ]}.
Proof.
  split_and!.
  - apply extract_lookup.
  - apply scan_ordered.
  - reflexivity.
  - vm_compute. reflexivity.
  - vm_compute. reflexivity.
Qed.

(** C6: the matcher matches exactly the pattern of the specification.  Every
    entry of the dictionary comes from an occurrence of the pattern in the
    text (a run of letters, whitespace and hyphens of three characters or
    more that starts a word, optional whitespace, an opening parenthesis, two
    to ten uppercase ASCII letters, a closing parenthesis), with the cleaned
    run as its value; every occurrence gives its acronym an entry; at a
    position the backtracking matcher succeeds exactly on the occurrences;
    ["weighted degree centrality (WDC)"] gives [{"WDC": "weighted degree
    centrality"}]; and a key has two to ten uppercase letters, so that an
    acronym of one letter or of eleven gives no entry. *)
Theorem pattern_exact (unicode_isalnum : char → bool) :
  (∀ text k v,
     extract_abbreviations unicode_isalnum text !! k = Some v →
     ∃ pre post full ws after,
       text = pre ++ post
       ∧ spec_pattern unicode_isalnum (last_or None pre) post full ws k after
       ∧ v = clean (full ++ ws))
  ∧ (∀ pre post full ws abbr after,
       spec_pattern unicode_isalnum (last_or None pre) post full ws abbr after →
       is_Some (extract_abbreviations unicode_isalnum (pre ++ post) !! abbr))
  ∧ (∀ pv s g1 abbr e,
       match_here unicode_isalnum pattern (Cursor pv s) = Some ([g1; abbr], e) ↔
       ∃ full ws after,
         spec_pattern unicode_isalnum pv s full ws abbr after
         ∧ g1 = full ++ ws ∧ e = Cursor (Some 41) after)
  ∧ extract_abbreviations unicode_isalnum (lit "weighted degree centrality (WDC)")
    = {[ lit "WDC" := lit "weighted degree centrality" ]}
  ∧ (∀ text k,
       is_Some (extract_abbreviations unicode_isalnum text !! k) →
       (2 ≤ length k ≤ 10)%nat ∧ Forall (λ c, is_upper c = true) k)
  ∧ extract_abbreviations unicode_isalnum (lit "weighted degree centrality (W)")
    = ∅
  ∧ extract_abbreviations unicode_isalnum
      (lit "weighted degree centrality (ABCDEFGHIJK)")
    = ∅.
Proof.
  split_and!.
  - apply entry_has_occurrence.
  - apply occurrence_has_entry.
  - apply match_here_spec.
  - vm_compute. reflexivity.
  - intros text k [v (full & Hin & _)%extract_entry].
    apply findall_acronym in Hin as [Hup Hlen]. done.
  - vm_compute. reflexivity.
  - vm_compute. reflexivity.
Qed.

(** C7: every full term stored in the dictionary is the cleaned capture of a
    match: it has no whitespace at either end, its words are separated by one
    space (U+0020) each, and its words are those of the capture, in order;
    ["foo   bar  (FB)"] gives [{"FB": "foo bar"}]. *)
Theorem full_terms_normalized (unicode_isalnum : char → bool)
    (text k v : str) :
  extract_abbreviations unicode_isalnum text !! k = Some v →
  tidy v = true
  ∧ (∃ full, (full, k) ∈ findall unicode_isalnum pattern text
       ∧ v = join (lit " ") (split full)
       ∧ split v = split full)
  ∧ extract_abbreviations unicode_isalnum (lit "foo   bar  (FB)")
    = {[ lit "FB" := lit "foo bar" ]}.
Proof.
  intros (full & Hin & ->)%extract_entry. split_and!.
  - apply clean_tidy.
  - exists full. split_and!; [done|done|apply clean_words].
  - vm_compute. reflexivity.
Qed.

(** The entry of ["foo   bar  (FB)"] is one the theorem applies to. *)
Lemma full_terms_normalized_witness :
  tidy (lit "foo bar") = true
  ∧ ∃ full,
      (full, lit "FB")
        ∈ findall Reference.unicode_isalnum pattern (lit "foo   bar  (FB)")
      ∧ lit "foo bar" = join (lit " ") (split full)
      ∧ split (lit "foo bar") = split full.
Proof.
  destruct (full_terms_normalized Reference.unicode_isalnum
              (lit "foo   bar  (FB)") (lit "FB") (lit "foo bar"))
    as (Htidy & Hfull & _).
  - vm_compute. reflexivity.
  - split; [exact Htidy|exact Hfull].
Defined.

(** C10: a stored full term can be shorter than three characters: in
    ["a   (AB)"] the first group captures ["a   "], four characters, and the
    dictionary stores ["a"]; the minimum of three bears on the capture. *)
Theorem short_full_term (unicode_isalnum : char → bool) :
  findall unicode_isalnum pattern (lit "a   (AB)") = [(lit "a   ", lit "AB")]
  ∧ extract_abbreviations unicode_isalnum (lit "a   (AB)")
    = {[ lit "AB" := lit "a" ]}
  ∧ (∃ text k v full,
       extract_abbreviations unicode_isalnum text !! k = Some v
       ∧ (length v < 3)%nat
       ∧ (full, k) ∈ findall unicode_isalnum pattern text
       ∧ v = clean full ∧ (3 ≤ length full)%nat).
Proof.
  split_and!.
  - vm_compute. reflexivity.
  - vm_compute. reflexivity.
  - exists (lit "a   (AB)"), (lit "AB"), (lit "a"), (lit "a   ").
    split_and!.
    + vm_compute. reflexivity.
    + vm_compute. lia.
    + replace (findall _ _ _) with [(lit "a   ", lit "AB")]
        by (vm_compute; reflexivity).
      by left.
    + vm_compute. reflexivity.
    + vm_compute. lia.
Qed.

(** ** The order of [sorted] *)

Lemma str_leb_refl (a : str) : str_leb a a = true.
Proof.
  induction a as [|x a IH]; [done|]. simpl.
  by rewrite N.eqb_refl, IH, orb_true_r.
Qed.

Lemma str_leb_total (a b : str) : str_leb a b = true ∨ str_leb b a = true.
Proof.
  revert b. induction a as [|x a IH]; intros [|y b]; simpl; auto.
  destruct (N.ltb_spec x y); [by left|].
  destruct (N.ltb_spec y x); [by right|].
  assert (x = y) as -> by lia. rewrite N.eqb_refl. simpl. apply IH.
Qed.

Lemma str_leb_trans (a b c : str) :
  str_leb a b = true → str_leb b c = true → str_leb a c = true.
Proof.
  revert b c. induction a as [|x a IH]; intros [|y b] [|z c]; simpl; try done.
  rewrite !orb_true_iff, !andb_true_iff, !N.ltb_lt, !N.eqb_eq.
  intros [Hxy|[-> Hab]] [Hyz|[-> Hbc]].
  - left. lia.
  - by left.
  - by left.
  - right. split; [done|]. by eapply IH.
Qed.

Lemma str_leb_antisym (a b : str) :
  str_leb a b = true → str_leb b a = true → a = b.
Proof.
  revert b. induction a as [|x a IH]; intros [|y b]; simpl; try done.
  rewrite !orb_true_iff, !andb_true_iff, !N.ltb_lt, !N.eqb_eq.
  intros [Hxy|[-> Hab]] [Hyx|[Heq Hba]]; try lia.
  f_equal. by apply IH.
Qed.

#[global] Instance str_le_total : Total str_le.
Proof. intros a b. apply str_leb_total. Qed.

#[global] Instance str_le_trans : Transitive str_le.
Proof. intros a b c. apply str_leb_trans. Qed.

Lemma sorted_keys_perm (d : gmap str str) :
  sorted_keys d ≡ₚ (map_to_list d).*1.
Proof. apply merge_sort_Permutation. Qed.

Lemma sorted_keys_elem (d : gmap str str) (k : str) :
  k ∈ sorted_keys d ↔ is_Some (d !! k).
Proof.
  rewrite sorted_keys_perm, list_elem_of_fmap. split.
  - intros ([k' v] & -> & Hin). apply elem_of_map_to_list in Hin. by exists v.
  - intros [v Hv]. exists (k, v). split; [done|]. by apply elem_of_map_to_list.
Qed.

Lemma sorted_keys_ascending (d : gmap str str) :
  StronglySorted str_lt (sorted_keys d).
Proof.
  assert (Hnd : NoDup (sorted_keys d)).
  { rewrite sorted_keys_perm. apply NoDup_fst_map_to_list. }
  assert (Hs : StronglySorted str_le (sorted_keys d)).
  { apply StronglySorted_merge_sort; apply _. }
  induction Hs as [|k l Hl IH Hk]; [constructor|].
  apply NoDup_cons in Hnd as [Hnot Hnd].
  constructor; [by apply IH|].
  apply Forall_forall. intros k' Hin. split.
  - by eapply Forall_forall in Hk.
  - by intros ->.
Qed.

Lemma lookup_total_Some (d : gmap str str) (k : str) :
  is_Some (d !! k) → d !! k = Some (d !!! k).
Proof. intros [v Hv]. by rewrite (lookup_total_correct _ _ _ Hv). Qed.

(** ** The page *)

(** C5: the model is called once, with the question and the first 4000
    characters of the context: the whole context when it has 4000 characters
    or fewer, and never more than 4000. *)
Theorem get_answer_truncates (exn : Type) (qa : str → str → result exn str)
    (question context : str) :
  (get_answer exn qa question context).1 = [Ask question (take 4000 context)]
  ∧ (get_answer exn qa question context).2 = qa question (take 4000 context)
  ∧ take 4000 context `prefix_of` context
  ∧ length (take 4000 context) = (length context `min` 4000)%nat
  ∧ ((length context ≤ 4000)%nat → take 4000 context = context).
Proof.
  split_and!.
  - unfold get_answer, call_qa. simpl. by destruct (qa _ _).
  - unfold get_answer, call_qa. simpl. by destruct (qa _ _).
  - apply prefix_take.
  - rewrite length_take. lia.
  - apply take_ge.
Qed.

(** ** The text extractor *)

Section ExtractorFacts.

Variable exn : Type.
Variable page : Type.
Variable PdfReader : list byte → result exn (list page).
Variable page_extract_text : page → result exn (option str).
Variable Document : list byte → result exn (list str).
Variable BeautifulSoup : list byte → result exn (list Html.node).
Variable unicode_lower : str → nat → str.

Let extract_text := extract_text_from_file exn page PdfReader
  page_extract_text Document BeautifulSoup unicode_lower.
Let suffix_of (file : UploadedFile) : str :=
  lower unicode_lower (PathLib.suffix (name file)).

Lemma result_bind_Ok {A B} (f : A → result exn B) (a : A) :
  (Ok a ≫= f) = f a.
Proof. reflexivity. Qed.

(** The dispatch on the extension, one equation per branch. *)
Lemma extract_txt file :
  suffix_of file = lit ".txt" →
  extract_text file = Ok (Utf8.decode_ignore (read file)).
Proof.
  unfold extract_text, suffix_of, extract_text_from_file. intros ->.
  by destruct (decide (lit ".txt" = lit ".txt")).
Qed.

Lemma extract_pdf file :
  suffix_of file = lit ".pdf" →
  extract_text file =
    (reader ← PdfReader (read file);
     pages ← mapM (λ page, t ← page_extract_text page; Ok (default [] t)) reader;
     Ok (join [10] pages)).
Proof.
  unfold extract_text, suffix_of, extract_text_from_file. intros ->.
  destruct (decide (lit ".pdf" = lit ".txt")) as [E|_]; [by vm_compute in E|].
  by destruct (decide (lit ".pdf" = lit ".pdf")).
Qed.

Lemma extract_docx file :
  suffix_of file = lit ".docx" →
  extract_text file = (document ← Document (read file); Ok (join [10] document)).
Proof.
  unfold extract_text, suffix_of, extract_text_from_file. intros ->.
  destruct (decide (lit ".docx" = lit ".txt")) as [E|_]; [by vm_compute in E|].
  destruct (decide (lit ".docx" = lit ".pdf")) as [E|_]; [by vm_compute in E|].
  by destruct (decide (lit ".docx" = lit ".docx")).
Qed.

Lemma extract_html file :
  suffix_of file ∈ [lit ".html"; lit ".htm"] →
  extract_text file =
    (soup ← BeautifulSoup (read file);
     Ok (Html.get_text [10]
           (concat (map (Html.extract_tags [lit "script"; lit "style"]) soup)))).
Proof.
  unfold extract_text, suffix_of, extract_text_from_file. intros Hin.
  rewrite (bool_decide_eq_true_2 _ Hin).
  apply elem_of_cons in Hin as [->| ->%list_elem_of_singleton].
  - destruct (decide (lit ".html" = lit ".txt")) as [E|_]; [by vm_compute in E|].
    destruct (decide (lit ".html" = lit ".pdf")) as [E|_]; [by vm_compute in E|].
    by destruct (decide (lit ".html" = lit ".docx")) as [E|_]; [vm_compute in E|].
  - destruct (decide (lit ".htm" = lit ".txt")) as [E|_]; [by vm_compute in E|].
    destruct (decide (lit ".htm" = lit ".pdf")) as [E|_]; [by vm_compute in E|].
    by destruct (decide (lit ".htm" = lit ".docx")) as [E|_]; [vm_compute in E|].
Qed.

Lemma extract_other file :
  suffix_of file ∉ supported → extract_text file = Ok [].
Proof.
  unfold extract_text, suffix_of, extract_text_from_file, supported.
  rewrite !not_elem_of_cons. intros (Htxt & Hpdf & Hdocx & Hhtml & Hhtm & _).
  rewrite !decide_False by done.
  rewrite bool_decide_eq_false_2; [done|].
  rewrite !not_elem_of_cons. split_and!; [done|done|apply not_elem_of_nil].
Qed.

Lemma parser_failure_extract file e :
  parser_failure exn page PdfReader page_extract_text Document BeautifulSoup
    unicode_lower file e →
  extract_text file = Raise e.
Proof.
  intros [[Hs Hpdf]|[[Hs Hdocx]|[Hs Hhtml]]].
  - rewrite extract_pdf by done.
    destruct Hpdf as [->|(reader & -> & Hpages)]; [done|].
    rewrite result_bind_Ok. cbv beta. unfold str in *. by rewrite Hpages.
  - rewrite extract_docx by done. by rewrite Hdocx.
  - rewrite extract_html by done. by rewrite Hhtml.
Qed.

(** The loop over the files stops at the first file whose extraction
    raises. *)
Lemma read_all_raise all_text before file after e :
  Forall (λ f, ∃ text, extract_text f = Ok text) before →
  extract_text file = Raise e →
  read_all exn page PdfReader page_extract_text Document BeautifulSoup
    unicode_lower all_text (before ++ file :: after) = Raise e.
Proof.
  intros Hbefore Hfile. revert all_text.
  induction Hbefore as [|f before [text Hf] _ IH]; intros all_text; simpl.
  - fold extract_text. by rewrite Hfile.
  - fold extract_text. rewrite Hf. simpl. apply IH.
Qed.

End ExtractorFacts.

(** ** The handlers *)

Lemma lstrip_keeps (s : str) (c : char) :
  c ∈ s → isspace c = false → c ∈ lstrip s.
Proof.
  intros Hin Hc. induction s as [|x s IH]; [done|]. simpl.
  destruct (isspace x) eqn:Hx; [|done].
  apply elem_of_cons in Hin as [->|Hin]; [congruence|by apply IH].
Qed.

Lemma strip_keeps (s : str) (c : char) :
  c ∈ s → isspace c = false → c ∈ strip s.
Proof.
  intros Hin Hc. unfold strip, rstrip.
  apply elem_of_reverse, lstrip_keeps; [|done].
  apply elem_of_reverse. by apply lstrip_keeps.
Qed.

Section HandlerFacts.

Variable exn : Type.
Variable page : Type.
Variable PdfReader : list byte → result exn (list page).
Variable page_extract_text : page → result exn (option str).
Variable Document : list byte → result exn (list str).
Variable BeautifulSoup : list byte → result exn (list Html.node).
Variable unicode_lower : str → nat → str.
Variable qa : str → str → result exn str.

Let extract_text := extract_text_from_file exn page PdfReader
  page_extract_text Document BeautifulSoup unicode_lower.
Let loop := read_all exn page PdfReader page_extract_text Document
  BeautifulSoup unicode_lower.
Let button := get_answer_button exn page PdfReader
  page_extract_text Document BeautifulSoup unicode_lower qa.

(** What the loop has read stays in the text, and every file adds its
    header, with its [=] signs. *)
Lemma read_all_keeps all_text files text :
  loop all_text files = Ok text →
  (∀ c, c ∈ all_text → c ∈ text) ∧ (files ≠ [] → 61 ∈ text).
Proof.
  revert all_text. induction files as [|file files IH]; intros all_text; simpl.
  - intros [= ->]. done.
  - fold extract_text.
    destruct (extract_text file) as [t|e]; [|done]. simpl.
    intros [Hkeep _]%IH. split.
    + intros c Hc. apply Hkeep. rewrite !elem_of_app. by left; left.
    + intros _. apply Hkeep. rewrite !elem_of_app. left; right.
      unfold header. rewrite !elem_of_app. right; left.
      by apply list_elem_of_In; vm_compute; left.
Qed.

Lemma read_all_not_blank files text :
  files ≠ [] → loop [] files = Ok text → strip text ≠ [].
Proof.
  intros Hne [_ Heq]%read_all_keeps.
  assert (Hin : 61 ∈ strip text) by (by apply strip_keeps; [apply Heq|]).
  intros Hnil. rewrite Hnil in Hin. by apply elem_of_nil in Hin.
Qed.

Lemma get_answer_button_log question files text :
  question ≠ [] → files ≠ [] → loop [] files = Ok text →
  (button question files).1
  = [Success (lit "Great! Reading your documents now...");
     Write (lit "### Preview of the document text:");
     Write (take 500 text ++ lit "..." ++ [10; 10]
            ++ lit "(Only showing the beginning.)");
     Write (lit "### Thinking about your question...");
     Ask question (take 4000 text)]
    ++ match qa question (take 4000 text) with
       | Ok answer => [Write (lit "## Answer:"); Write answer]
       | Raise _ => []
       end.
Proof.
  intros Hq Hf Hread. pose proof (read_all_not_blank _ _ Hf Hread) as Hstrip.
  unfold button, get_answer_button.
  destruct question as [|q question]; [done|].
  destruct files as [|file files]; [done|].
  fold loop. rewrite Hread.
  cbv [mbind ui_bind emit lift fst].
  destruct (strip text) as [|c s] eqn:Hs; [done|].
  unfold get_answer, call_qa. cbv [mbind ui_bind mret ui_ret].
  by destruct (qa _ _).
Qed.

(** When every file is read, the loop ends with a text. *)
Lemma read_all_Ok all_text files :
  Forall (λ f, ∃ t, extract_text f = Ok t) files →
  ∃ text, loop all_text files = Ok text.
Proof.
  intros Hfiles. revert all_text.
  induction Hfiles as [|f files [t Hf] _ IH]; intros all_text; simpl.
  - by eexists.
  - fold extract_text. rewrite Hf. simpl. apply IH.
Qed.

(** The question handler never writes the error: without a question or
    without files it warns, an exception ends it after the first message,
    and a text that was read holds the headers. *)
Lemma get_answer_button_no_error question files s :
  Error s ∉ (button question files).1.
Proof.
  destruct question as [|q question].
  { cbn. by intros [=]%list_elem_of_singleton. }
  destruct files as [|file files].
  { cbn. by intros [=]%list_elem_of_singleton. }
  destruct (loop [] (file :: files)) as [text|e] eqn:Hread.
  - rewrite (get_answer_button_log _ _ text) by done.
    destruct (qa _ _); cbn [app]; intros Hin;
      repeat (apply elem_of_cons in Hin as [Hin|Hin]; [discriminate Hin|]);
      by apply elem_of_nil in Hin.
  - unfold button, get_answer_button. fold loop. rewrite Hread.
    cbn. by intros [=]%list_elem_of_singleton.
Qed.

(** C3: a question and files whose extracted texts are all empty or
    whitespace: the text the handler tests is not blank, since each file has
    added its header [===== name =====] to it, so the handler writes no
    error, shows the preview and calls the model with the question and the
    first 4000 characters of the headers and texts. *)
Theorem blank_documents_reach_the_model question files :
  question ≠ [] → files ≠ [] →
  Forall (λ f, ∃ t, extract_text f = Ok t ∧ strip t = []) files →
  ∃ all_text,
    loop [] files = Ok all_text
    ∧ strip all_text ≠ []
    ∧ (button question files).1
      = [Success (lit "Great! Reading your documents now...");
         Write (lit "### Preview of the document text:");
         Write (take 500 all_text ++ lit "..." ++ [10; 10]
                ++ lit "(Only showing the beginning.)");
         Write (lit "### Thinking about your question...");
         Ask question (take 4000 all_text)]
        ++ match qa question (take 4000 all_text) with
           | Ok answer => [Write (lit "## Answer:"); Write answer]
           | Raise _ => []
           end
    ∧ Ask question (take 4000 all_text) ∈ (button question files).1
    ∧ ∀ s, Error s ∉ (button question files).1.
Proof.
  intros Hq Hf Hblank.
  destruct (read_all_Ok [] files) as [all_text Hread].
  { eapply Forall_impl; [exact Hblank|]. intros f (t & Ht & _). by exists t. }
  exists all_text. split_and!.
  - done.
  - by eapply read_all_not_blank.
  - by apply get_answer_button_log.
  - rewrite (get_answer_button_log _ _ all_text) by done.
    apply elem_of_app. left. do 4 apply list_elem_of_further.
    apply list_elem_of_here.
  - intros s. apply get_answer_button_no_error.
Qed.

End HandlerFacts.

(** One upload, [empty.txt] with no bytes, and the question ["q"]: the model
    is asked about the header of the file. *)
Lemma blank_documents_reach_the_model_witness :
  ∃ all_text,
    strip all_text ≠ []
    ∧ Ask (lit "q") (take 4000 all_text)
        ∈ (Reference.Get_Answer (lit "q") [Upload (lit "empty.txt") []]).1
    ∧ ∀ s, Error s
        ∉ (Reference.Get_Answer (lit "q") [Upload (lit "empty.txt") []]).1.
Proof.
  destruct (blank_documents_reach_the_model Reference.exn Reference.page
              Reference.PdfReader Reference.page_extract_text
              Reference.Document Reference.BeautifulSoup
              Reference.unicode_lower Reference.qa
              (lit "q") [Upload (lit "empty.txt") []])
    as (all_text & _ & Hstrip & _ & Hask & Herr).
  - intros E. vm_compute in E. discriminate E.
  - intros E. discriminate E.
  - constructor; [|constructor]. exists []. split; vm_compute; reflexivity.
  - exists all_text. split; [exact Hstrip|]. split; [exact Hask|exact Herr].
Defined.

(** ** Failing parsers, empty uploads and unknown extensions *)

Section Propagation.

Variable exn : Type.
Variable page : Type.
Variable PdfReader : list byte → result exn (list page).
Variable page_extract_text : page → result exn (option str).
Variable Document : list byte → result exn (list str).
Variable BeautifulSoup : list byte → result exn (list Html.node).
Variable unicode_lower : str → nat → str.
Variable unicode_isalnum : char → bool.
Variable qa : str → str → result exn str.

Let extract_text := extract_text_from_file exn page PdfReader
  page_extract_text Document BeautifulSoup unicode_lower.
Let suffix_of (file : UploadedFile) : str :=
  lower unicode_lower (PathLib.suffix (name file)).
Let answer_handler := get_answer_button exn page PdfReader
  page_extract_text Document BeautifulSoup unicode_lower qa.
Let index_handler := abbreviation_index_button exn page PdfReader
  page_extract_text Document BeautifulSoup unicode_lower unicode_isalnum.

(** What the index handler writes for one article: the heading with the name
    of the file, then the index of the abbreviations of its text. *)
Let heading (file : UploadedFile) : str :=
  lit "#### Abbreviation index for **" ++ name file ++ lit "**".
Let index_block (file : UploadedFile) (text : str) : list event :=
  Markdown (heading file)
  :: render_index (extract_abbreviations unicode_isalnum text).

(** The loop over the articles ends with the exception of the first article
    whose extraction raises. *)
Lemma index_all_raise before file after e :
  Forall (λ f, ∃ text, extract_text f = Ok text) before →
  extract_text file = Raise e →
  (index_all exn page PdfReader page_extract_text Document BeautifulSoup
     unicode_lower unicode_isalnum (before ++ file :: after)).2 = Raise e.
Proof.
  intros Hbefore Hfile.
  induction Hbefore as [|f before [text Hf] _ IH]; cbn [app index_all].
  - fold extract_text. rewrite Hfile. reflexivity.
  - fold extract_text. rewrite Hf. cbv [mbind ui_bind emit lift].
    destruct (index_all _ _ _ _ _ _ _ _ _) as [log r].
    cbn [snd] in *. by subst r.
Qed.

(** The loop over the articles, when every article is read. *)
Lemma index_all_run files texts :
  Forall2 (λ f t, extract_text f = Ok t) files texts →
  index_all exn page PdfReader page_extract_text Document BeautifulSoup
    unicode_lower unicode_isalnum files
  = (concat (zip_with index_block files texts), Ok tt).
Proof.
  induction 1 as [|f t files texts Hf _ IH]; [done|].
  cbn [index_all]. fold extract_text. rewrite Hf, IH.
  cbv [mbind ui_bind emit lift]. cbn [zip_with concat app]. done.
Qed.

(** The loop stops at the first article whose extraction raises: the
    articles before it are indexed, its heading is written, and nothing is
    written for the articles after it. *)
Lemma index_all_stops before texts file after e :
  Forall2 (λ f t, extract_text f = Ok t) before texts →
  extract_text file = Raise e →
  index_all exn page PdfReader page_extract_text Document BeautifulSoup
    unicode_lower unicode_isalnum (before ++ file :: after)
  = (concat (zip_with index_block before texts) ++ [Markdown (heading file)],
     Raise e).
Proof.
  intros Hbefore Hfile.
  induction Hbefore as [|f t before texts Hf _ IH]; cbn [app index_all].
  - fold extract_text. by rewrite Hfile.
  - fold extract_text. rewrite Hf, IH.
    cbv [mbind ui_bind emit lift]. cbn [zip_with concat app].
    by rewrite <-app_assoc.
Qed.

(** C1: nothing catches the failure of a parser.  When the parser of the
    extension of a file raises on its bytes, the extractor raises the same
    exception, not the empty string; the question handler ends with that
    exception after its first message, whatever files come after; the index
    handler ends with it after the heading of the failing file: the indexes
    of the files before it are on the page, and the files after it are
    neither read nor indexed.  The batch is aborted. *)
Theorem parser_failure_propagates file e :
  parser_failure exn page PdfReader page_extract_text Document BeautifulSoup
    unicode_lower file e →
  extract_text file = Raise e
  ∧ extract_text file ≠ Ok []
  ∧ (∀ question before after,
       question ≠ [] →
       Forall (λ f, ∃ text, extract_text f = Ok text) before →
       answer_handler question (before ++ file :: after)
       = ([Success (lit "Great! Reading your documents now...")], Raise e))
  ∧ (∀ before after,
       Forall (λ f, ∃ text, extract_text f = Ok text) before →
       (index_handler (before ++ file :: after)).2 = Raise e)
  ∧ (∀ before texts after,
       Forall2 (λ f t, extract_text f = Ok t) before texts →
       index_handler (before ++ file :: after)
       = (concat (zip_with index_block before texts)
          ++ [Markdown (heading file)],
          Raise e)).
Proof.
  intros Hfile%parser_failure_extract. fold extract_text in Hfile.
  split_and!.
  - done.
  - by rewrite Hfile.
  - intros question before after Hq Hbefore.
    pose proof (read_all_raise exn page PdfReader page_extract_text Document
                  BeautifulSoup unicode_lower [] before file after e
                  Hbefore Hfile) as Hread.
    unfold answer_handler, get_answer_button.
    destruct question as [|q question]; [done|].
    destruct (before ++ file :: after) as [|f fs] eqn:Hfiles.
    { by destruct before. }
    by rewrite Hread.
  - intros before after Hbefore.
    pose proof (index_all_raise before file after e Hbefore Hfile) as Hindex.
    unfold index_handler, abbreviation_index_button.
    destruct (before ++ file :: after) as [|f fs] eqn:Hfiles.
    { by destruct before. }
    exact Hindex.
  - intros before texts after Hbefore.
    pose proof (index_all_stops before texts file after e Hbefore Hfile)
      as Hindex.
    unfold index_handler, abbreviation_index_button.
    destruct (before ++ file :: after) as [|f fs] eqn:Hfiles.
    { by destruct before. }
    exact Hindex.
Qed.

(** C2: an upload without bytes.  A [.txt] upload gives the empty string.
    The other branches hand the empty bytes to their parser, without a test:
    the result is the empty string when the parser reads them as a document
    without pages, without paragraphs or without nodes, and the exception of
    the parser when it raises. *)
Theorem empty_bytes_extraction (filename : str) :
  let file := Upload filename [] in
  (suffix_of file = lit ".txt" → extract_text file = Ok [])
  ∧ (suffix_of file = lit ".pdf" →
       (PdfReader [] = Ok [] → extract_text file = Ok [])
       ∧ (∀ e, PdfReader [] = Raise e → extract_text file = Raise e))
  ∧ (suffix_of file = lit ".docx" →
       (Document [] = Ok [] → extract_text file = Ok [])
       ∧ (∀ e, Document [] = Raise e → extract_text file = Raise e))
  ∧ (suffix_of file ∈ [lit ".html"; lit ".htm"] →
       (BeautifulSoup [] = Ok [] → extract_text file = Ok [])
       ∧ (∀ e, BeautifulSoup [] = Raise e → extract_text file = Raise e)).
Proof.
  intros file. split_and!.
  - intros Hs. unfold extract_text. by rewrite extract_txt.
  - intros Hs. unfold extract_text. rewrite extract_pdf by done.
    cbn [read file]. by split; [intros ->|intros e ->].
  - intros Hs. unfold extract_text. rewrite extract_docx by done.
    cbn [read file]. by split; [intros ->|intros e ->].
  - intros Hs. unfold extract_text. rewrite extract_html by done.
    cbn [read file]. by split; [intros ->|intros e ->].
Qed.

(** C8: a name whose extension, in lower case, is none of the five: the
    empty string, whatever the bytes; no parser is called. *)
Theorem unsupported_extension_gives_empty (filename : str)
    (file_bytes : list byte) :
  lower unicode_lower (PathLib.suffix filename) ∉ supported →
  extract_text (Upload filename file_bytes) = Ok [].
Proof. intros Hs. by apply extract_other. Qed.

(** C9: the index handler writes, for each article in the order of the
    upload, the heading with the name of the file and then the index of the
    abbreviations of its text.  For a dictionary that is not empty the index
    is one line per entry, the acronym and the full term bound to it, by
    ascending acronym in the order of [sorted] (each key once, every key of
    the dictionary); for an empty dictionary it is the line that says that no
    abbreviation was found, and nothing else; a dictionary with the keys
    ["B"] and ["A"] is written with ["A"] first. *)
Theorem index_rendering (abbr_dict : gmap str str) :
  (abbr_dict = ∅ →
     render_index abbr_dict
     = [Write (lit "No abbreviations found in this article.")])
  ∧ (abbr_dict ≠ ∅ →
       render_index abbr_dict
       = (λ abbr, Write (index_line abbr (abbr_dict !!! abbr)))
           <$> sorted_keys abbr_dict
       ∧ sorted_keys abbr_dict ≠ []
       ∧ Write (lit "No abbreviations found in this article.")
         ∉ render_index abbr_dict)
  ∧ StronglySorted str_lt (sorted_keys abbr_dict)
  ∧ (∀ abbr, abbr ∈ sorted_keys abbr_dict ↔ is_Some (abbr_dict !! abbr))
  ∧ (∀ abbr, abbr ∈ sorted_keys abbr_dict →
       abbr_dict !! abbr = Some (abbr_dict !!! abbr))
  ∧ render_index {[ lit "B" := lit "bravo"; lit "A" := lit "alpha" ]}
    = [Write (lit "**A**: alpha"); Write (lit "**B**: bravo")]
  ∧ (∀ files texts,
       files ≠ [] →
       Forall2 (λ f t, extract_text f = Ok t) files texts →
       index_handler files
       = (concat (zip_with (λ f t,
            Markdown (lit "#### Abbreviation index for **" ++ name f
                      ++ lit "**")
            :: render_index (extract_abbreviations unicode_isalnum t))
            files texts),
          Ok tt))
  ∧ (∀ file text,
       extract_text file = Ok text →
       index_handler [file]
       = (Markdown (lit "#### Abbreviation index for **" ++ name file
                    ++ lit "**")
          :: (if decide (extract_abbreviations unicode_isalnum text = ∅)
              then [Write (lit "No abbreviations found in this article.")]
              else (λ abbr,
                     Write (index_line abbr
                       (extract_abbreviations unicode_isalnum text !!! abbr)))
                   <$> sorted_keys
                         (extract_abbreviations unicode_isalnum text)),
          Ok tt)).
Proof.
  split_and!.
  - intros ->. reflexivity.
  - intros Hne. unfold render_index. rewrite decide_False by done.
    split_and!; [done| |].
    + intros Hnil. apply Hne. apply map_eq. intros k.
      rewrite lookup_empty. apply eq_None_not_Some.
      rewrite <-sorted_keys_elem, Hnil. apply not_elem_of_nil.
    + intros (abbr & Heq & _)%list_elem_of_fmap.
      injection Heq as Heq. by vm_compute in Heq.
  - apply sorted_keys_ascending.
  - apply sorted_keys_elem.
  - intros abbr Hin. by apply lookup_total_Some, sorted_keys_elem.
  - vm_compute. reflexivity.
  - intros files texts Hne Hfiles.
    pose proof (index_all_run files texts Hfiles) as Hrun.
    unfold index_handler, abbreviation_index_button.
    destruct files; [done|]. exact Hrun.
  - intros file text Hfile.
    pose proof (index_all_run [file] [text]) as Hrun.
    unfold index_handler, abbreviation_index_button.
    rewrite Hrun by (constructor; [done|constructor]).
    cbn [zip_with concat]. rewrite app_nil_r. reflexivity.
Qed.

End Propagation.

(** A file that is no PDF, under the name [scan.pdf]. *)
Lemma parser_failure_propagates_witness :
  Reference.extract_text
    (Upload (lit "scan.pdf") (Reference.bytes "not a pdf"))
  = Raise Reference.PdfStreamError.
Proof.
  refine (proj1 (parser_failure_propagates Reference.exn Reference.page
            Reference.PdfReader Reference.page_extract_text
            Reference.Document Reference.BeautifulSoup
            Reference.unicode_lower Reference.unicode_isalnum Reference.qa
            (Upload (lit "scan.pdf") (Reference.bytes "not a pdf"))
            Reference.PdfStreamError _)).
  left. split; [vm_compute; reflexivity|left; reflexivity].
Defined.

(** The extraction of a file that is no PDF is an exception, and with it the
    question handler stops before [notes.txt] is read. *)
Lemma corrupt_pdf_aborts_batch :
  Reference.extract_text
    (Upload (lit "scan.pdf") (Reference.bytes "not a pdf"))
  = Raise Reference.PdfStreamError
  ∧ Reference.extract_text (Upload (lit "notes.txt") (Reference.bytes "hello"))
    = Ok (lit "hello")
  ∧ Reference.Get_Answer (lit "q")
      [Upload (lit "scan.pdf") (Reference.bytes "not a pdf");
       Upload (lit "notes.txt") (Reference.bytes "hello")]
    = ([Success (lit "Great! Reading your documents now...")],
       Raise Reference.PdfStreamError).
Proof. split_and!; vm_compute; reflexivity. Qed.

(** pypdf and python-docx raise on an empty stream. *)
Lemma empty_pdf_and_docx_raise :
  Reference.extract_text (Upload (lit "a.pdf") [])
  = Raise Reference.EmptyFileError
  ∧ Reference.extract_text (Upload (lit "a.docx") [])
    = Raise Reference.BadZipFile
  ∧ Reference.extract_text (Upload (lit "a.txt") []) = Ok []
  ∧ Reference.extract_text (Upload (lit "a.html") []) = Ok [].
Proof. split_and!; vm_compute; reflexivity. Qed.

(** [notes.md] is read as the empty string, whatever it holds. *)
Lemma unsupported_extension_gives_empty_witness :
  Reference.extract_text (Upload (lit "notes.md") (Reference.bytes "# Notes"))
  = Ok [].
Proof.
  apply (unsupported_extension_gives_empty Reference.exn Reference.page
           Reference.PdfReader Reference.page_extract_text
           Reference.Document Reference.BeautifulSoup
           Reference.unicode_lower).
  unfold supported. rewrite !not_elem_of_cons.
  split_and!; try (intros E; vm_compute in E; discriminate E).
  apply not_elem_of_nil.
Defined.

(** An empty upload under the name [a.pdf]: pypdf raises, and so does the
    extractor. *)
Lemma empty_bytes_extraction_witness :
  Reference.extract_text (Upload (lit "a.pdf") [])
  = Raise Reference.EmptyFileError.
Proof.
  refine (proj2 (proj1 (proj2 (empty_bytes_extraction Reference.exn
            Reference.page Reference.PdfReader Reference.page_extract_text
            Reference.Document Reference.BeautifulSoup
            Reference.unicode_lower (lit "a.pdf"))) _)
            Reference.EmptyFileError _).
  - vm_compute. reflexivity.
  - reflexivity.
Defined.

(** Two articles: in the first the acronyms are written [AT] before [BT],
    though [BT] comes first in the text; the second has none. *)
Lemma index_rendering_witness :
  abbreviation_index_button Reference.exn Reference.page Reference.PdfReader
    Reference.page_extract_text Reference.Document Reference.BeautifulSoup
    Reference.unicode_lower Reference.unicode_isalnum
    [Upload (lit "a.txt")
       (Reference.bytes "beta thing (BT); alpha term (AT)");
     Upload (lit "b.txt") (Reference.bytes "nothing here")]
  = ([Markdown (lit "#### Abbreviation index for **a.txt**");
      Write (lit "**AT**: alpha term");
      Write (lit "**BT**: beta thing");
      Markdown (lit "#### Abbreviation index for **b.txt**");
      Write (lit "No abbreviations found in this article.")],
     Ok tt).
Proof.
  destruct (index_rendering Reference.exn Reference.page Reference.PdfReader
              Reference.page_extract_text Reference.Document
              Reference.BeautifulSoup Reference.unicode_lower
              Reference.unicode_isalnum ∅)
    as (_ & _ & _ & _ & _ & _ & Hfiles & _).
  rewrite (Hfiles _ [lit "beta thing (BT); alpha term (AT)";
                     lit "nothing here"]).
  - vm_compute. reflexivity.
  - intros E. discriminate E.
  - constructor; [vm_compute; reflexivity|].
    constructor; [vm_compute; reflexivity|constructor].
Defined.
(** ** More on the text extractor *)



(** The name of a file, as the uploader gives it: no directory. *)
Lemma split_on_no_sep sep cur (s : str) :
  sep ∉ s → PathLib.split_on sep cur s = [cur ++ s].
Proof.
  revert cur. induction s as [|c s IH]; intros cur Hs; simpl.
  - by rewrite app_nil_r.
  - apply not_elem_of_cons in Hs as [Hc Hs].
    destruct (N.eqb_spec c sep) as [->|_]; [done|].
    rewrite IH by done. by rewrite <-app_assoc.
Qed.

Lemma name_plain (p : str) :
  47 ∉ p → p ≠ [] → p ≠ lit "." → PathLib.name p = p.
Proof.
  intros Hp Hne Hdot. unfold PathLib.name, PathLib.parts.
  rewrite split_on_no_sep by done. cbn [app].
  rewrite filter_cons_True by done. done.
Qed.

Lemma rfind_none c (s : str) : c ∉ s → PathLib.rfind c s = None.
Proof.
  induction s as [|x s IH]; [done|]. intros [Hx Hs]%not_elem_of_cons.
  simpl. rewrite IH by done.
  by destruct (N.eqb_spec x c) as [->|_].
Qed.

Lemma rfind_last c (stem ext : str) :
  c ∉ ext → PathLib.rfind c (stem ++ c :: ext) = Some (length stem).
Proof.
  intros Hext. induction stem as [|x stem IH]; simpl.
  - rewrite rfind_none by done. by rewrite N.eqb_refl.
  - by rewrite IH.
Qed.

Lemma suffix_after_last_dot (stem ext : str) :
  stem ≠ [] → ext ≠ [] → 47 ∉ stem → 46 ∉ ext → 47 ∉ ext →
  PathLib.suffix (stem ++ 46 :: ext) = 46 :: ext.
Proof.
  intros Hstem Hext Hs Hdot Hslash. unfold PathLib.suffix.
  rewrite name_plain.
  - rewrite rfind_last by done.
    assert (Hlen : length (stem ++ 46 :: ext) = S (length stem + length ext))
      by (rewrite length_app; simpl; lia).
    rewrite Hlen.
    destruct (_ && _) eqn:E; [by rewrite drop_app_length|].
    apply andb_false_iff in E as [E|E]; apply Nat.ltb_ge in E;
      destruct stem, ext; simpl in *; try done; lia.
  - rewrite not_elem_of_app, not_elem_of_cons. by split_and!.
  - by destruct stem.
  - destruct stem as [|x [|??]]; [done| |done]. by destruct ext.
Qed.

Lemma suffix_without_dot (fname : str) :
  47 ∉ fname → (46 ∉ fname ∨ ∃ tl, fname = 46 :: tl ∧ 46 ∉ tl) →
  PathLib.suffix fname = [].
Proof.
  intros Hslash Hdot. unfold PathLib.suffix.
  destruct (decide (fname = [])) as [->|Hne]; [done|].
  destruct (decide (fname = lit ".")) as [->|Hne']; [done|].
  rewrite name_plain by done.
  destruct Hdot as [Hdot|(tl & -> & Hdot)].
  - by rewrite rfind_none.
  - pose proof (rfind_last 46 [] tl Hdot) as H. cbn [app length] in H.
    unfold str, char in *. by rewrite H.
Qed.

(** Induction on a tree, with the property for the children of an
    element. *)
Lemma node_forall_ind (P : Html.node → Prop) :
  (∀ s, P (Html.Text s)) →
  (∀ s, P (Html.Comment s)) →
  (∀ nm children, Forall P children → P (Html.Tag nm children)) →
  ∀ n, P n.
Proof.
  intros HText HComment HTag. fix IH 1.
  intros [s|s|nm children]; [apply HText|apply HComment|].
  apply HTag. induction children as [|c cs IHcs]; constructor;
    [apply IH|apply IHcs].
Qed.

Lemma existsb_Forall_false {A} (f : A → bool) (l : list A) :
  Forall (λ x, f x = false) l → existsb f l = false.
Proof. induction 1 as [|x l Hx _ IH]; [done|]. simpl. by rewrite Hx, IH. Qed.

Lemma extract_tags_clean names (n : Html.node) :
  Forall (λ m, has_tag names m = false) (Html.extract_tags names n).
Proof.
  induction n as [s|s|nm children IH] using node_forall_ind.
  - by repeat constructor.
  - by repeat constructor.
  - cbn [Html.extract_tags]. case_bool_decide as Hnm; [constructor|].
    constructor; [|constructor]. cbn [has_tag].
    rewrite bool_decide_eq_false_2 by done. cbn [orb].
    apply existsb_Forall_false.
    induction IH as [|c cs Hc _ IHcs]; [constructor|].
    cbn [map concat]. by apply Forall_app.
Qed.

Lemma extract_tags_id names (n : Html.node) :
  has_tag names n = false → Html.extract_tags names n = [n].
Proof.
  induction n as [s|s|nm children IH] using node_forall_ind; [done|done|].
  cbn [has_tag Html.extract_tags]. intros [Hnm Hch]%orb_false_elim.
  rewrite Hnm. do 2 f_equal.
  induction IH as [|c cs Hc _ IHcs]; [done|].
  cbn [existsb] in Hch. apply orb_false_elim in Hch as [Hc' Hcs].
  cbn [map concat]. rewrite Hc by done. rewrite IHcs by done. done.
Qed.

Lemma extract_tags_all_id names (soup : list Html.node) :
  Forall (λ m, has_tag names m = false) soup →
  concat (map (Html.extract_tags names) soup) = soup.
Proof.
  induction 1 as [|n soup Hn _ IH]; [done|].
  cbn [map concat]. by rewrite extract_tags_id, IH.
Qed.

Lemma extract_tags_all_clean names (soup : list Html.node) :
  Forall (λ m, has_tag names m = false)
    (concat (map (Html.extract_tags names) soup)).
Proof.
  induction soup as [|n soup IH]; [constructor|].
  cbn [map concat]. apply Forall_app. split; [apply extract_tags_clean|done].
Qed.

Lemma lstrip_blank (s : str) : Forall (λ c, isspace c = true) s → lstrip s = [].
Proof. induction 1 as [|c s Hc _ IH]; [done|]. simpl. by rewrite Hc. Qed.

Lemma strip_blank (s : str) : Forall (λ c, isspace c = true) s → strip s = [].
Proof.
  intros Hs. unfold strip, rstrip. rewrite (lstrip_blank s) by done. reflexivity.
Qed.

Lemma join_blank (n : nat) :
  join [10] (replicate n ([] : str)) = replicate (n - 1) 10.
Proof.
  destruct n as [|n]; [done|]. induction n as [|n IH]; [done|].
  change (join [10] (replicate (S (S n)) ([] : str)))
    with (10 :: join [10] (replicate (S n) ([] : str))).
  rewrite IH. simpl. by rewrite Nat.sub_0_r.
Qed.

Lemma strings_concat (l : list (list Html.node)) :
  concat (map Html.strings (concat l))
  = concat (map (λ ns, concat (map Html.strings ns)) l).
Proof.
  induction l as [|ns l IH]; [done|].
  cbn [concat map]. by rewrite map_app, concat_app, IH.
Qed.

(** What is read after the elements are taken out: the strings that were
    not inside one of them. *)
Lemma extract_tags_strings names (n : Html.node) :
  concat (map Html.strings (Html.extract_tags names n))
  = visible_strings names n.
Proof.
  induction n as [s|s|nm children IH] using node_forall_ind; [done|done|].
  cbn [Html.extract_tags visible_strings].
  case_bool_decide as Hnm; [done|].
  cbn [map concat Html.strings]. rewrite app_nil_r, strings_concat.
  rewrite map_map. f_equal.
  induction IH as [|c cs Hc _ IHcs]; [done|].
  cbn [map]. by rewrite Hc, IHcs.
Qed.

Lemma extract_tags_all_strings names (soup : list Html.node) :
  concat (map Html.strings (concat (map (Html.extract_tags names) soup)))
  = concat (map (visible_strings names) soup).
Proof.
  rewrite strings_concat, map_map. f_equal.
  induction soup as [|n soup IH]; [done|].
  cbn [map]. by rewrite extract_tags_strings, IH.
Qed.

Section ExtractorMore.

Variable exn : Type.
Variable page : Type.
Variable PdfReader : list byte → result exn (list page).
Variable page_extract_text : page → result exn (option str).
Variable Document : list byte → result exn (list str).
Variable BeautifulSoup : list byte → result exn (list Html.node).
Variable unicode_lower : str → nat → str.

Let extract_text := extract_text_from_file exn page PdfReader
  page_extract_text Document BeautifulSoup unicode_lower.
Let suffix_of (file : UploadedFile) : str :=
  lower unicode_lower (PathLib.suffix (name file)).

Lemma pages_without_text (reader : list page) :
  Forall (λ p, page_extract_text p = Ok None
               ∨ page_extract_text p = Ok (Some [])) reader →
  mapM (λ page, t ← page_extract_text page; Ok (default [] t)) reader
  = Ok (replicate (length reader) []).
Proof.
  induction 1 as [|p reader Hp _ IH]; [done|].
  cbn [mapM length replicate]. unfold str in *. rewrite IH.
  by destruct Hp as [-> | ->].
Qed.


(** X2: the extension is what follows the last dot of the name, and it is
    compared in lower case: [REPORT.PDF.TXT] is a text file.  The name is
    one that has a character other than a dot before its last dot. *)
Theorem extension_after_last_dot (stem ext : str) (file_bytes : list byte) :
  Exists (λ c, c ≠ 46) stem → ext ≠ [] → 47 ∉ stem → 46 ∉ ext → 47 ∉ ext →
  let file := Upload (stem ++ 46 :: ext) file_bytes in
  suffix_of file = lower unicode_lower (46 :: ext)
  ∧ (lower unicode_lower (46 :: ext) = lit ".txt" →
     extract_text file = Ok (Utf8.decode_ignore file_bytes))
  ∧ (lower unicode_lower (46 :: ext) ∉ supported →
     extract_text file = Ok []).
Proof.
  intros Hword Hext Hs Hdot Hslash file.
  assert (Hstem : stem ≠ []) by (by destruct Hword).
  assert (Hsuf : suffix_of file = lower unicode_lower (46 :: ext)).
  { unfold suffix_of, file. cbn [name]. by rewrite suffix_after_last_dot. }
  split_and!; [done| |].
  - intros Htxt. unfold extract_text. rewrite extract_txt; [done|].
    fold (suffix_of file). by rewrite Hsuf.
  - intros Hother. unfold extract_text. rewrite extract_other; [done|].
    fold (suffix_of file). by rewrite Hsuf.
Qed.

(** X3: a name without an extension, that is without a dot or with one dot, its
    first character: the empty string, whatever the bytes.  A file named
    [.txt] is no text file. *)
Theorem name_without_extension (filename : str) (file_bytes : list byte) :
  47 ∉ filename →
  (46 ∉ filename ∨ ∃ tl, filename = 46 :: tl ∧ 46 ∉ tl) →
  extract_text (Upload filename file_bytes) = Ok [].
Proof.
  intros Hslash Hdot. unfold extract_text. apply extract_other.
  cbn [name]. rewrite suffix_without_dot by done.
  unfold supported. rewrite !not_elem_of_cons.
  split_and!; try (intros E; vm_compute in E; discriminate E).
  apply not_elem_of_nil.
Qed.

(** X4: a PDF whose pages have no text (a scan): no exception, and the text is
    one line end between two pages, so it is blank. *)
Theorem pdf_without_text (file : UploadedFile) (reader : list page) :
  suffix_of file = lit ".pdf" →
  PdfReader (read file) = Ok reader →
  Forall (λ p, page_extract_text p = Ok None
               ∨ page_extract_text p = Ok (Some [])) reader →
  extract_text file = Ok (replicate (length reader - 1) 10)
  ∧ strip (replicate (length reader - 1) 10) = [].
Proof.
  intros Hs Hreader Hpages. split.
  - unfold extract_text. rewrite extract_pdf by done.
    rewrite Hreader, result_bind_Ok. cbv beta. unfold str in *.
    rewrite pages_without_text by done. rewrite result_bind_Ok.
    by rewrite join_blank.
  - apply strip_blank, Forall_replicate. done.
Qed.

(** X5: in an HTML file, the text that is read is made of the strings that
    are not inside a [script] or [style] element, at any depth, in the order
    of the document, one line end between two of them; the tree that is read
    holds no such element, and a document without them is read whole. *)
Theorem html_without_scripts (file : UploadedFile) (soup : list Html.node) :
  suffix_of file ∈ [lit ".html"; lit ".htm"] →
  BeautifulSoup (read file) = Ok soup →
  extract_text file
  = Ok (join [10]
          (concat (map (visible_strings [lit "script"; lit "style"]) soup)))
  ∧ extract_text file
    = Ok (Html.get_text [10]
            (concat (map (Html.extract_tags [lit "script"; lit "style"])
                       soup)))
  ∧ Forall (λ n, has_tag [lit "script"; lit "style"] n = false)
      (concat (map (Html.extract_tags [lit "script"; lit "style"]) soup))
  ∧ (Forall (λ n, has_tag [lit "script"; lit "style"] n = false) soup →
     extract_text file = Ok (Html.get_text [10] soup)).
Proof.
  intros Hs Hsoup.
  assert (Hread : extract_text file
    = Ok (Html.get_text [10]
            (concat (map (Html.extract_tags [lit "script"; lit "style"])
                       soup)))).
  { unfold extract_text. rewrite extract_html by done. by rewrite Hsoup. }
  split_and!.
  - rewrite Hread. unfold Html.get_text.
    by rewrite extract_tags_all_strings.
  - done.
  - apply extract_tags_all_clean.
  - intros Hclean. rewrite Hread. by rewrite extract_tags_all_id.
Qed.

End ExtractorMore.

(** Membership in a literal, by computation. *)
Ltac not_in_literal :=
  let E := fresh "E" in
  intros E; apply list_elem_of_In in E; vm_compute in E;
  intuition discriminate.

Ltac not_literal :=
  let E := fresh "E" in intros E; vm_compute in E; discriminate E.


(** [REPORT.PDF.TXT] is read as a text file. *)
Lemma extension_after_last_dot_witness :
  Reference.extract_text
    (Upload (lit "REPORT.PDF.TXT") (Reference.bytes "hello"))
  = Ok (lit "hello").
Proof.
  refine (proj1 (proj2 (extension_after_last_dot Reference.exn Reference.page
            Reference.PdfReader Reference.page_extract_text
            Reference.Document Reference.BeautifulSoup
            Reference.unicode_lower (lit "REPORT.PDF") (lit "TXT")
            (Reference.bytes "hello") _ _ _ _ _)) _).
  - apply Exists_exists. exists 82. split; [|discriminate].
    apply list_elem_of_In. vm_compute. auto.
  - not_literal.
  - not_in_literal.
  - not_in_literal.
  - not_in_literal.
  - vm_compute. reflexivity.
Defined.

(** A file named [.txt] has no extension. *)
Lemma name_without_extension_witness :
  Reference.extract_text (Upload (lit ".txt") (Reference.bytes "hello"))
  = Ok [].
Proof.
  apply (name_without_extension Reference.exn Reference.page
           Reference.PdfReader Reference.page_extract_text
           Reference.Document Reference.BeautifulSoup
           Reference.unicode_lower).
  - not_in_literal.
  - right. exists (lit "txt"). split; [vm_compute; reflexivity|].
    not_in_literal.
Defined.

(** A scan of two pages: one line end. *)
Lemma pdf_without_text_witness :
  extract_text_from_file Reference.exn Reference.page Scanned.PdfReader
    Reference.page_extract_text Reference.Document Reference.BeautifulSoup
    Reference.unicode_lower
    (Upload (lit "scan.pdf") (Reference.bytes "%PDF"))
  = Ok [10].
Proof.
  refine (proj1 (pdf_without_text Reference.exn Reference.page
            Scanned.PdfReader Reference.page_extract_text
            Reference.Document Reference.BeautifulSoup
            Reference.unicode_lower
            (Upload (lit "scan.pdf") (Reference.bytes "%PDF"))
            [None; Some []] _ _ _)).
  - vm_compute. reflexivity.
  - reflexivity.
  - constructor; [by left|]. constructor; [by right|]. constructor.
Defined.

(** A page with a script in its head and a style sheet in its body: the
    text of the body is read, the script and the style sheet are not. *)
Lemma html_without_scripts_witness :
  extract_text_from_file Reference.exn Reference.page Reference.PdfReader
    Reference.page_extract_text Reference.Document Scripted.BeautifulSoup
    Reference.unicode_lower
    (Upload (lit "page.html")
       (Reference.bytes
          "<html><head><script>var x;</script></head><body><p>Hello</p><style>p {}</style>world</body></html>"))
  = Ok (lit "Hello" ++ [10] ++ lit "world").
Proof.
  destruct (html_without_scripts Reference.exn Reference.page
              Reference.PdfReader Reference.page_extract_text
              Reference.Document Scripted.BeautifulSoup
              Reference.unicode_lower
              (Upload (lit "page.html")
       (Reference.bytes
          "<html><head><script>var x;</script></head><body><p>Hello</p><style>p {}</style>world</body></html>"))
              _ (list_elem_of_here _ _) eq_refl)
    as (Hread & _).
  rewrite Hread. vm_compute. reflexivity.
Defined.

(** ** More on the abbreviation matcher *)

Lemma letter_not_space c : is_letter c = true → isspace c = false.
Proof.
  unfold is_letter, is_upper, is_lower, isspace. intros H.
  apply orb_true_iff in H as [H|H];
    apply andb_true_iff in H as [H1 H2]; apply N.leb_le in H1, H2;
    repeat match goal with
    | |- context [?a <=? ?b] => destruct (N.leb_spec a b); try lia
    | |- context [?a =? ?b] => destruct (N.eqb_spec a b); try lia
    end; done.
Qed.

Lemma split_from_chars (P : char → Prop) (cur s : str) :
  Forall P cur → Forall (λ c, isspace c = true ∨ P c) s →
  Forall (Forall P) (split_from cur s).
Proof.
  intros Hcur Hs. revert cur Hcur.
  induction Hs as [|c s Hc _ IH]; intros cur Hcur; simpl.
  - destruct cur; [constructor|]. constructor; [done|constructor].
  - destruct (isspace c) eqn:Hsp.
    + destruct cur; [by apply IH|]. constructor; [done|by apply IH].
    + apply IH. apply Forall_app. split; [done|].
      constructor; [|constructor]. by destruct Hc as [Hc|Hc]; [congruence|].
Qed.

Lemma join_chars (P : char → Prop) (sep : str) (ws : list str) :
  Forall P sep → Forall (Forall P) ws → Forall P (join sep ws).
Proof.
  intros Hsep. induction 1 as [|w ws Hw Hws IH]; [constructor|].
  destruct ws as [|w' ws]; [done|].
  change (join sep (w :: w' :: ws)) with (w ++ sep ++ join sep (w' :: ws)).
  rewrite !Forall_app. by split_and!.
Qed.

Lemma split_from_head (cur s : str) x :
  head cur = Some x → ∃ w ws, split_from cur s = w :: ws ∧ head w = Some x.
Proof.
  revert cur. induction s as [|c s IH]; intros cur Hcur; simpl.
  - destruct cur; [done|]. by eexists _, _.
  - destruct (isspace c).
    + destruct cur; [done|]. by eexists _, _.
    + apply IH. by destruct cur.
Qed.

Lemma join_head (sep w : str) (ws : list str) x :
  head w = Some x → head (join sep (w :: ws)) = Some x.
Proof. intros Hw. destruct w; [done|]. by destruct ws. Qed.

Lemma split_from_trailing (cur s ws : str) :
  Forall (λ c, isspace c = true) ws →
  split_from cur (s ++ ws) = split_from cur s.
Proof.
  intros Hws. revert cur. induction s as [|c s IH]; intros cur.
  - cbn [app]. revert cur.
    induction Hws as [|c ws Hc _ IH]; intros cur; [done|].
    simpl. rewrite Hc. destruct cur; [apply IH|].
    by rewrite IH.
  - simpl. destruct (isspace c); [|apply IH].
    destruct cur; by rewrite IH.
Qed.

Lemma clean_trailing (s ws : str) :
  Forall (λ c, isspace c = true) ws → clean (s ++ ws) = clean s.
Proof. intros Hws. unfold clean, split. by rewrite split_from_trailing. Qed.

(** X6: [" ".join(s.split())] changes nothing the second time, and gives the
    empty string for a blank one. *)
Theorem clean_idempotent (s : str) :
  clean (clean s) = clean s
  ∧ (Forall (λ c, isspace c = true) s → clean s = []).
Proof.
  split.
  - unfold clean at 1. by rewrite clean_words.
  - intros Hs. rewrite <-(app_nil_l s). by rewrite clean_trailing.
Qed.

Section MatcherMore.

Variable unicode_isalnum : char → bool.

(** X7: without an opening parenthesis, without a closing one or without an
    uppercase ASCII letter, a text has no abbreviation. *)
Theorem no_parenthesis_no_entry (text : str) :
  40 ∉ text ∨ 41 ∉ text ∨ Forall (λ c, is_upper c = false) text →
  extract_abbreviations unicode_isalnum text = ∅.
Proof.
  intros Hno. apply map_empty. intros k.
  destruct (extract_abbreviations unicode_isalnum text !! k) as [v|] eqn:E;
    [exfalso|done].
  apply entry_has_occurrence in E
    as (pre & post & full & ws & after & -> & Hspec & _).
  destruct Hspec as (-> & _ & _ & _ & _ & _ & Hup & Hlen).
  destruct Hno as [Hno|[Hno|Hno]].
  - apply Hno. rewrite !elem_of_app, elem_of_cons. by right; right; right; left.
  - apply Hno. rewrite !elem_of_app, !elem_of_cons, elem_of_app, elem_of_cons.
    right; right; right; right; right. by left.
  - destruct k as [|a k]; [simpl in Hlen; lia|].
    apply Forall_cons in Hup as [Ha _].
    rewrite Forall_forall in Hno. rewrite (Hno a) in Ha; [done|].
    do 3 (apply elem_of_app; right). apply elem_of_cons; right.
    apply elem_of_app; left. apply elem_of_cons. by left.
Qed.

(** X8: a stored full term starts with an ASCII letter and holds ASCII letters,
    hyphens and spaces, nothing else. *)
Theorem full_term_alphabet (text k v : str) :
  extract_abbreviations unicode_isalnum text !! k = Some v →
  (∃ x tl, v = x :: tl ∧ is_letter x = true)
  ∧ Forall (λ c, is_letter c = true ∨ c = 45 ∨ c = 32) v.
Proof.
  intros (pre & post & full & ws & after & _ & Hspec & ->)%entry_has_occurrence.
  destruct Hspec as (_ & _ & (x & tl & -> & Hx) & Hfull & _ & Hws & _).
  rewrite clean_trailing by done. split.
  - pose proof (letter_not_space x Hx) as Hsp.
    destruct (split_from_head [x] tl x eq_refl) as (w & wds & Hsplit & Hw).
    assert (Hclean : clean (x :: tl) = join (lit " ") (w :: wds)).
    { unfold clean, split. simpl. by rewrite Hsp, Hsplit. }
    pose proof (join_head (lit " ") w wds x Hw) as Hhead.
    rewrite Hclean. destruct (join _ _) as [|y tl']; [done|].
    injection Hhead as ->. by eexists _, _.
  - apply join_chars.
    + change (lit " ") with ([32] : str).
      constructor; [by right; right|constructor].
    + apply split_from_chars; [constructor|].
      eapply Forall_impl; [exact Hfull|]. intros c [Hc|[Hc|Hc]]; auto.
Qed.

(** X9: the first group starts where the run of words starts: for a text that
    is a run of words and an acronym in parentheses, the full term is the
    whole run, with the words that lead to the term. *)
Theorem full_term_is_whole_run (text full ws abbr after : str) :
  spec_pattern unicode_isalnum None text full ws abbr after →
  extract_abbreviations unicode_isalnum text !! abbr = Some (clean full).
Proof.
  intros Hspec.
  assert (Hm : match_here unicode_isalnum pattern (Cursor None text)
               = Some ([full ++ ws; abbr], Cursor (Some 41) after)).
  { apply match_here_spec. by exists full, ws, after. }
  destruct Hspec as (Htext & _ & (x & tl & -> & _) & _ & _ & Hws & _).
  rewrite extract_lookup. unfold findall.
  destruct text as [|y text]; [done|].
  cbn [scan]. rewrite Hm. cbn [map nth snd].
  cbn [list_find snd fst].
  rewrite decide_True by done. cbn [fmap option_fmap option_map snd fst].
  by rewrite clean_trailing.
Qed.

End MatcherMore.

(** A text without parentheses. *)
Lemma no_parenthesis_no_entry_witness :
  extract_abbreviations Reference.unicode_isalnum (lit "plain words") = ∅.
Proof.
  apply no_parenthesis_no_entry. left.
  intros E. apply list_elem_of_In in E. vm_compute in E.
  intuition discriminate.
Defined.

(** The entry of ["foo   bar  (FB)"]. *)
Lemma full_term_alphabet_witness :
  (∃ x tl, lit "foo bar" = x :: tl ∧ is_letter x = true)
  ∧ Forall (λ c, is_letter c = true ∨ c = 45 ∨ c = 32) (lit "foo bar").
Proof.
  apply (full_term_alphabet Reference.unicode_isalnum
           (lit "foo   bar  (FB)") (lit "FB")).
  vm_compute. reflexivity.
Defined.

(** The words that lead to the term are in the full term. *)
Lemma full_term_is_whole_run_witness :
  extract_abbreviations Reference.unicode_isalnum
    (lit "We use the weighted degree centrality (WDC)") !! lit "WDC"
  = Some (lit "We use the weighted degree centrality").
Proof.
  refine (full_term_is_whole_run Reference.unicode_isalnum
            (lit "We use the weighted degree centrality (WDC)")
            (lit "We use the weighted degree centrality") (lit " ")
            (lit "WDC") [] _).
  unfold spec_pattern. split_and!.
  - vm_compute. reflexivity.
  - reflexivity.
  - eexists _, _. split; [vm_compute; reflexivity|reflexivity].
  - vm_compute. repeat (constructor; [auto|]). constructor.
  - vm_compute. lia.
  - constructor; [reflexivity|constructor].
  - repeat constructor.
  - vm_compute. lia.
  - vm_compute. lia.
Defined.

(** ** More on the handlers *)

Section HandlerMore.

Variable exn : Type.
Variable page : Type.
Variable PdfReader : list byte → result exn (list page).
Variable page_extract_text : page → result exn (option str).
Variable Document : list byte → result exn (list str).
Variable BeautifulSoup : list byte → result exn (list Html.node).
Variable unicode_lower : str → nat → str.
Variable unicode_isalnum : char → bool.
Variable qa : str → str → result exn str.

Let extract_text := extract_text_from_file exn page PdfReader
  page_extract_text Document BeautifulSoup unicode_lower.
Let combine := read_all exn page PdfReader page_extract_text Document
  BeautifulSoup unicode_lower.
Let answer_handler := get_answer_button exn page PdfReader
  page_extract_text Document BeautifulSoup unicode_lower qa.
Let index_loop := index_all exn page PdfReader page_extract_text Document
  BeautifulSoup unicode_lower unicode_isalnum.
Let index_handler := abbreviation_index_button exn page PdfReader
  page_extract_text Document BeautifulSoup unicode_lower unicode_isalnum.

(** The handler when the files are read: its events and its end. *)
Lemma answer_handler_run question files text :
  question ≠ [] → files ≠ [] → combine [] files = Ok text →
  answer_handler question files
  = ([Success (lit "Great! Reading your documents now...");
      Write (lit "### Preview of the document text:");
      Write (take 500 text ++ lit "..." ++ [10; 10]
             ++ lit "(Only showing the beginning.)");
      Write (lit "### Thinking about your question...");
      Ask question (take 4000 text)]
     ++ match qa question (take 4000 text) with
        | Ok answer => [Write (lit "## Answer:"); Write answer]
        | Raise _ => []
        end,
     match qa question (take 4000 text) with
     | Ok _ => Ok tt
     | Raise e => Raise e
     end).
Proof.
  intros Hq Hf Hread.
  pose proof (read_all_not_blank exn page PdfReader page_extract_text Document
                BeautifulSoup unicode_lower _ _ Hf Hread) as Hstrip.
  unfold answer_handler, get_answer_button.
  destruct question as [|q question]; [done|].
  destruct files as [|file files]; [done|].
  fold combine. rewrite Hread.
  cbv [mbind ui_bind emit lift].
  destruct (strip text) as [|c s] eqn:Hs; [done|].
  unfold get_answer, call_qa. cbv [mbind ui_bind mret ui_ret].
  by destruct (qa _ _).
Qed.

(** The text the handler works on: for each file, in the order of the
    upload, its header and its text. *)
Lemma read_all_concat all_text files texts :
  Forall2 (λ f t, extract_text f = Ok t) files texts →
  combine all_text files
  = Ok (all_text ++ concat (zip_with (λ f t, header f ++ t) files texts)).
Proof.
  intros Hfiles. revert all_text.
  induction Hfiles as [|f t files texts Hf _ IH]; intros all_text.
  - simpl. by rewrite app_nil_r.
  - cbn [combine read_all]. fold extract_text. rewrite Hf.
    rewrite result_bind_Ok. cbv zeta. fold combine. rewrite IH.
    cbn [zip_with concat]. by rewrite <-!app_assoc.
Qed.

(** X10: an exception of the model ends the handler after the preview: the
    heading of the answer is not written. *)
Theorem model_failure_ends_handler question files text e :
  question ≠ [] → files ≠ [] → combine [] files = Ok text →
  qa question (take 4000 text) = Raise e →
  answer_handler question files
  = ([Success (lit "Great! Reading your documents now...");
      Write (lit "### Preview of the document text:");
      Write (take 500 text ++ lit "..." ++ [10; 10]
             ++ lit "(Only showing the beginning.)");
      Write (lit "### Thinking about your question...");
      Ask question (take 4000 text)],
     Raise e).
Proof.
  intros Hq Hf Hread Hqa.
  rewrite (answer_handler_run question files text) by done.
  by rewrite Hqa.
Qed.

(** X11: the model is called once at most, and only with the question typed and
    the first 4000 characters of the combined text, when there is a question
    and every file was read. *)
Theorem model_asked_at_most_once question files :
  (length (List.filter is_ask (answer_handler question files).1) ≤ 1)%nat
  ∧ ∀ q context, Ask q context ∈ (answer_handler question files).1 →
      q = question ∧ question ≠ [] ∧ files ≠ []
      ∧ (length context ≤ 4000)%nat
      ∧ ∃ all_text, combine [] files = Ok all_text
          ∧ context = take 4000 all_text.
Proof.
  destruct question as [|c question].
  { split; [cbn; lia|]. cbn. by intros q context [=]%list_elem_of_singleton. }
  destruct files as [|file files].
  { split; [cbn; lia|]. cbn. by intros q context [=]%list_elem_of_singleton. }
  destruct (combine [] (file :: files)) as [text|e] eqn:Hread.
  - rewrite (answer_handler_run _ _ text) by done. split.
    + destruct (qa _ _); cbn; lia.
    + intros q context Hin.
      assert (Hask : q = c :: question ∧ context = take 4000 text).
      { destruct (qa _ _); cbn [app fst] in Hin;
          repeat (apply elem_of_cons in Hin as [Hin|Hin];
                  [try discriminate Hin|]);
          try (by apply elem_of_nil in Hin);
          by injection Hin as -> ->. }
      destruct Hask as [-> ->]. split_and!; try done.
      * rewrite length_take. lia.
      * by exists text.
  - assert (Hrun : answer_handler (c :: question) (file :: files)
                   = ([Success (lit "Great! Reading your documents now...")],
                      Raise e)).
    { unfold answer_handler, get_answer_button. fold combine.
      by rewrite Hread. }
    rewrite Hrun. split; [cbn; lia|].
    cbn. by intros q context [=]%list_elem_of_singleton.
Qed.

(** X12: what the model is asked about: the headers and the texts of the files,
    in the order of the upload, cut at 4000 characters.  The headers count
    in the 4000. *)
Theorem combined_text_layout question files texts :
  question ≠ [] → files ≠ [] →
  Forall2 (λ f t, extract_text f = Ok t) files texts →
  Ask question
    (take 4000 (concat (zip_with (λ f t, header f ++ t) files texts)))
  ∈ (answer_handler question files).1.
Proof.
  intros Hq Hf Hfiles.
  pose proof (read_all_concat [] files texts Hfiles) as Hread.
  cbn [app] in Hread.
  rewrite (answer_handler_run _ _ _ Hq Hf Hread).
  cbn [fst]. apply elem_of_app. left. do 4 apply list_elem_of_further.
  apply list_elem_of_here.
Qed.

(** X13: the index of an article is made from the text of that article alone:
    when every file is read, the page shows, file after file, the heading
    with the name of the file and the index of its own abbreviations. *)
Theorem index_per_file files texts :
  files ≠ [] →
  Forall2 (λ f t, extract_text f = Ok t) files texts →
  index_handler files
  = (concat (zip_with (λ f t,
       Markdown (lit "#### Abbreviation index for **" ++ name f ++ lit "**")
       :: render_index (extract_abbreviations unicode_isalnum t))
       files texts),
     Ok tt).
Proof.
  intros Hne Hfiles.
  assert (Hloop : index_loop files
    = (concat (zip_with (λ f t,
         Markdown (lit "#### Abbreviation index for **" ++ name f ++ lit "**")
         :: render_index (extract_abbreviations unicode_isalnum t))
         files texts),
       Ok tt)).
  { clear Hne. induction Hfiles as [|f t files texts Hf _ IH]; [done|].
    cbn [index_loop index_all]. fold extract_text. rewrite Hf.
    fold index_loop. rewrite IH.
    cbv [mbind ui_bind emit lift]. cbn [zip_with concat app]. done. }
  unfold index_handler, abbreviation_index_button.
  destruct files; [done|]. exact Hloop.
Qed.

(** X14: the index handler writes headings and lines, or its warning; it never
    calls the model and never writes an error, whatever happens to the
    files. *)
Theorem index_never_asks files :
  Forall index_output (index_handler files).1.
Proof.
  assert (Hloop : Forall index_output (index_loop files).1).
  { induction files as [|f files IH]; [constructor|].
    cbn [index_loop index_all]. fold extract_text. fold index_loop.
    destruct (extract_text f) as [t|e].
    - cbv [mbind ui_bind emit lift].
      destruct (index_loop files) as [log r]. cbn [fst] in *.
      cbn [app]. constructor; [done|]. apply Forall_app. split; [|done].
      unfold render_index. case_decide; [by repeat constructor|].
      by apply Forall_forall; intros ev (k & -> & _)%list_elem_of_fmap.
    - cbv [mbind ui_bind emit lift]. cbn. by repeat constructor. }
  unfold index_handler, abbreviation_index_button.
  destruct files; [by repeat constructor|exact Hloop].
Qed.

End HandlerMore.

(** A model that fails, asked about [notes.txt]. *)
Lemma model_failure_ends_handler_witness :
  (get_answer_button Reference.exn Reference.page Reference.PdfReader
     Reference.page_extract_text Reference.Document Reference.BeautifulSoup
     Reference.unicode_lower Scanned.qa (lit "q")
     [Upload (lit "notes.txt") (Reference.bytes "hello")]).2
  = Raise Reference.BadZipFile.
Proof.
  refine (f_equal snd (model_failure_ends_handler Reference.exn
            Reference.page Reference.PdfReader Reference.page_extract_text
            Reference.Document Reference.BeautifulSoup
            Reference.unicode_lower Scanned.qa (lit "q")
            [Upload (lit "notes.txt") (Reference.bytes "hello")]
            ([10; 10] ++ lit "===== notes.txt =====" ++ [10; 10]
             ++ lit "hello")
            Reference.BadZipFile _ _ _ _)).
  - intros E. vm_compute in E. discriminate E.
  - intros E. discriminate E.
  - vm_compute. reflexivity.
  - reflexivity.
Defined.

(** Two files: the model is asked about both, each under its header. *)
Lemma combined_text_layout_witness :
  Ask (lit "q")
    (take 4000
       (([10; 10] ++ lit "===== a.txt =====" ++ [10; 10] ++ lit "one")
        ++ [10; 10] ++ lit "===== b.txt =====" ++ [10; 10] ++ lit "two"))
  ∈ (Reference.Get_Answer (lit "q")
       [Upload (lit "a.txt") (Reference.bytes "one");
        Upload (lit "b.txt") (Reference.bytes "two")]).1.
Proof.
  pose proof (combined_text_layout Reference.exn Reference.page
                Reference.PdfReader Reference.page_extract_text
                Reference.Document Reference.BeautifulSoup
                Reference.unicode_lower Reference.qa (lit "q")
                [Upload (lit "a.txt") (Reference.bytes "one");
                 Upload (lit "b.txt") (Reference.bytes "two")]
                [lit "one"; lit "two"]) as H.
  cbn [zip_with concat] in H. rewrite app_nil_r in H.
  apply H.
  - intros E. vm_compute in E. discriminate E.
  - intros E. discriminate E.
  - constructor; [vm_compute; reflexivity|].
    constructor; [vm_compute; reflexivity|constructor].
Defined.

(** Two articles with the same acronym: each index has its own full
    term. *)
Lemma index_per_file_witness :
  abbreviation_index_button Reference.exn Reference.page Reference.PdfReader
    Reference.page_extract_text Reference.Document Reference.BeautifulSoup
    Reference.unicode_lower Reference.unicode_isalnum
    [Upload (lit "a.txt") (Reference.bytes "alpha term (AT)");
     Upload (lit "b.txt") (Reference.bytes "alpha thing (AT)")]
  = ([Markdown (lit "#### Abbreviation index for **a.txt**");
      Write (lit "**AT**: alpha term");
      Markdown (lit "#### Abbreviation index for **b.txt**");
      Write (lit "**AT**: alpha thing")],
     Ok tt).
Proof.
  rewrite (index_per_file Reference.exn Reference.page Reference.PdfReader
             Reference.page_extract_text Reference.Document
             Reference.BeautifulSoup Reference.unicode_lower
             Reference.unicode_isalnum _
             [lit "alpha term (AT)"; lit "alpha thing (AT)"]).
  - vm_compute. reflexivity.
  - intros E. discriminate E.
  - constructor; [vm_compute; reflexivity|].
    constructor; [vm_compute; reflexivity|constructor].
Defined.
